(** * random_choices: weighted random picking, with and without replacement

    A shallow embedding of [random_choices/random_choices.py] and the
    properties of its [Randomizer].

    Numbers.  The module is embedded twice.  In the first embedding Python's
    [float] is modelled by the exact rationals [Q]: its statements are about
    the algorithms over exact arithmetic, rounding is not modelled.  In the
    second one, [B64], a [float] is an IEEE 754 binary64 number, with the
    rounding, the infinities and the NaN of the machine; it carries the
    statements that depend on how the arithmetic rounds.

    Random source.  [self.rng] is modelled by the sequence of the values its
    successive calls return ([nat -> Q]) together with the number of calls
    made so far.

    Exceptions.  A computation returns [Ok v] or [Raise e]; a method of the
    [Randomizer] is a function from the object's state to such a result and
    the state it leaves behind. *)

From Stdlib Require Import QArith Qround Lqa ZArith List String Lia.
From Stdlib Require Floats Uint63.
From stdpp Require Import base option list gmap strings.

Open Scope string_scope.
Open Scope list_scope.
Open Scope Z_scope.
Open Scope Q_scope.

(** ** Exceptions and results *)

Inductive exn :=
| AssertionError (msg : string)
| IndexError
| ZeroDivisionError
| ValueError
| TypeError
| LoopFuel
| OverflowError.

Inductive res (T : Type) :=
| Ok (v : T)
| Raise (e : exn).

Arguments Ok {T} v.
Arguments Raise {T} e.

Definition res_bind {T U} (r : res T) (f : T -> res U) : res U :=
  match r with
  | Ok v => f v
  | Raise e => Raise e
  end.

(** ** Python primitives used by the module *)

(** [x > 0.0], [x <= 0.0], [x == y], [x < y] on numbers. *)
Definition Qgt0 (x : Q) : bool := negb (Qle_bool x 0).
Definition Qle0 (x : Q) : bool := Qle_bool x 0.
Definition Qltb (x y : Q) : bool := negb (Qle_bool y x).

(** [sum(l)]: the fold from the integer [0]. *)
Definition sum (l : list Q) : Q := fold_left Qplus l 0.

(** [itertools.accumulate(l)]: the running sums, the first one being the
    first element itself. *)
Fixpoint accumulate_from (acc : Q) (l : list Q) : list Q :=
  match l with
  | [] => []
  | x :: l' => (acc + x) :: accumulate_from (acc + x) l'
  end.

Definition accumulate (l : list Q) : list Q :=
  match l with
  | [] => []
  | x :: l' => x :: accumulate_from x l'
  end.

(** [x / y] on floats: division by zero raises. *)
Definition truediv (x y : Q) : res Q :=
  if Qeq_bool y 0 then Raise ZeroDivisionError else Ok (x / y).

(** The position a Python index [i] addresses in a sequence of length [n]:
    negative indices count from the end, anything else is out of range. *)
Definition py_index (n : nat) (i : Z) : option nat :=
  if (0 <=? i)%Z then
    if (i <? Z.of_nat n)%Z then Some (Z.to_nat i) else None
  else
    if (- Z.of_nat n <=? i)%Z then Some (Z.to_nat (Z.of_nat n + i)) else None.

(** [l[i]] *)
Definition getitem {T} (l : list T) (i : Z) : res T :=
  match py_index (length l) i with
  | Some j => match l !! j with Some x => Ok x | None => Raise IndexError end
  | None => Raise IndexError
  end.

(** [del l[i]] *)
Definition delitem {T} (l : list T) (i : Z) : res (list T) :=
  match py_index (length l) i with
  | Some j => Ok (delete j l)
  | None => Raise IndexError
  end.

(** [bisect.bisect(a, x, lo, hi)] of the Python standard library, which is
    [bisect_right]: binary search for the insertion point of [x] in [a]
    between [lo] and [hi].
<<
    if lo < 0: raise ValueError('lo must be non-negative')
    while lo < hi:
        mid = (lo + hi) // 2
        if x < a[mid]: hi = mid
        else: lo = mid + 1
    return lo
>>
    This is the definition of the module in Python; the loop is run with
    fuel, and [hi - lo] iterations suffice ([bisect_loop_fuel]). *)
Fixpoint bisect_loop (fuel : nat) (a : list Q) (x : Q) (lo hi : Z) : res Z :=
  if (lo <? hi)%Z then
    match fuel with
    | O => Raise LoopFuel
    | S fuel' =>
        let mid := ((lo + hi) / 2)%Z in
        res_bind (getitem a mid) (fun a_mid =>
          if Qltb x a_mid then bisect_loop fuel' a x lo mid
          else bisect_loop fuel' a x (mid + 1)%Z hi)
    end
  else Ok lo.

Definition bisect (a : list Q) (x : Q) (lo hi : Z) : res Z :=
  if (lo <? 0)%Z then Raise ValueError
  else bisect_loop (Z.to_nat (hi - lo)) a x lo hi.

(** ** The choices *)

Section RandomChoices.

(** The type of the return values ([Any] in the source). *)
Context {A : Type}.

(** [@dataclass class WeightedChoice] *)
Record WeightedChoice := MkWeightedChoice {
  return_value : A;
  weight : Q
}.

Definition weight_message : string := "Weight should be greater than 0.0".

(** The failure of the construction of a choice, which the specification
    names [InvalidWeightError]: in the source it is the failed assertion of
    [__post_init__], with its message. *)
Definition InvalidWeightError : exn := AssertionError weight_message.

(** [WeightedChoice.__post_init__]: [assert self.weight > 0.0, ...] *)
Definition WeightedChoice_post_init (self : WeightedChoice) : res unit :=
  if Qgt0 (weight self) then Ok tt else Raise (AssertionError weight_message).

(** [WeightedChoice(return_value, weight)]: the generated [__init__] stores
    the two fields and calls [__post_init__]. *)
Definition WeightedChoice_init (v : A) (w : Q) : res WeightedChoice :=
  let self := MkWeightedChoice v w in
  res_bind (WeightedChoice_post_init self) (fun _ => Ok self).

(** [UniformChoice(return_value)]: its own [__init__], which stores the
    weight [1] and never reaches [__post_init__]. *)
Definition UniformChoice_init (v : A) : res WeightedChoice :=
  Ok (MkWeightedChoice v 1).

(** ** The state of a [Randomizer] *)

(** The values the cached properties store in the instance dictionary. *)
Inductive pyval :=
| PyFloats (l : list Q)
| PyValues (l : list A)
| PyBool (b : bool)
| PyFloat (x : Q).

Definition as_floats (v : pyval) : option (list Q) :=
  match v with PyFloats l => Some l | _ => None end.
Definition as_values (v : pyval) : option (list A) :=
  match v with PyValues l => Some l | _ => None end.
Definition as_bool (v : pyval) : option bool :=
  match v with PyBool b => Some b | _ => None end.
Definition as_float (v : pyval) : option Q :=
  match v with PyFloat x => Some x | _ => None end.

(** [_population] and [rng] are the two plain attributes; [__dict__] holds
    the rest of the instance dictionary, which is where [cached_property]
    stores its values; [rng_calls] counts the calls of [rng] made so far. *)
Record Randomizer := MkRandomizer {
  _population : list WeightedChoice;
  rng : nat -> Q;
  rng_calls : nat;
  __dict__ : gmap string pyval
}.

Definition with_population (self : Randomizer) (p : list WeightedChoice) :=
  MkRandomizer p (rng self) (rng_calls self) (__dict__ self).
Definition with_dict (self : Randomizer) (d : gmap string pyval) :=
  MkRandomizer (_population self) (rng self) (rng_calls self) d.
Definition with_rng_calls (self : Randomizer) (n : nat) :=
  MkRandomizer (_population self) (rng self) n (__dict__ self).

(** ** Methods: state and exceptions *)

Definition M (T : Type) : Type := Randomizer -> res T * Randomizer.

Definition ret {T} (v : T) : M T := fun self => (Ok v, self).

Definition bind {T U} (c : M T) (k : T -> M U) : M U := fun self =>
  match c self with
  | (Ok v, self') => k v self'
  | (Raise e, self') => (Raise e, self')
  end.

Definition lift {T} (r : res T) : M T := fun self => (r, self).

Notation "x <- c ;; k" := (bind c (fun x => k))
  (at level 100, c at next level, right associativity).
Notation "c ;;; k" := (bind c (fun _ => k))
  (at level 100, right associativity).

(** [[f(x) for x in l]] with an effectful [f] *)
Fixpoint mapM {T U} (f : T -> M U) (l : list T) : M (list U) :=
  match l with
  | [] => ret []
  | x :: l' => y <- f x ;; ys <- mapM f l' ;; ret (y :: ys)
  end.

(** [[e for _ in repeat(None, k)]] with an effectful [e]; a negative [k]
    repeats nothing. *)
Fixpoint repeatM {T} (n : nat) (e : M T) : M (list T) :=
  match n with
  | O => ret []
  | S n' => y <- e ;; ys <- repeatM n' e ;; ret (y :: ys)
  end.

(** [self.rng()] *)
Definition call_rng : M Q := fun self =>
  (Ok (rng self (rng_calls self)), with_rng_calls self (S (rng_calls self))).

(** [functools.cached_property]: the value stored under the property's name
    in the instance dictionary if there is one, otherwise the value the
    function computes, which is stored before it is returned. *)
Definition cached_property {T} (name : string)
    (inj : T -> pyval) (proj : pyval -> option T) (func : M T) : M T :=
  fun self =>
    match __dict__ self !! name with
    | Some v =>
        match proj v with
        | Some x => (Ok x, self)
        | None => (Raise TypeError, self)
        end
    | None =>
        match func self with
        | (Ok x, self') => (Ok x, with_dict self' (<[name := inj x]> (__dict__ self')))
        | (Raise e, self') => (Raise e, self')
        end
    end.

(** ** The class dictionary and the invalidation of the cache *)

Inductive attr := Function | Property | CachedProperty | Other.

(** [Randomizer.__dict__], in the order of the class body. *)
Definition class_dict : list (string * attr) :=
  [ ("__module__", Other);
    ("__init__", Function);
    ("population", Property);
    ("weights", CachedProperty);
    ("return_values", CachedProperty);
    ("is_uniform", CachedProperty);
    ("cumulative_weights", CachedProperty);
    ("total_weight", CachedProperty);
    ("is_empty", Property);
    ("normalized_weights", CachedProperty);
    ("normalized_cumulative_weights", CachedProperty);
    ("_delete_cached_properties", Function);
    ("pick_with_replacement", Function);
    ("pick_without_replacement", Function);
    ("__dict__", Other);
    ("__weakref__", Other);
    ("__doc__", Other) ].

Definition class_getitem (name : string) : option attr :=
  snd <$> List.find (fun p => String.eqb (fst p) name) class_dict.

Definition is_cached_property (name : string) : bool :=
  match class_getitem name with
  | Some CachedProperty => true
  | _ => false
  end.

(** [Randomizer._delete_cached_properties]: [del self.__dict__[prop]] for
    every attribute of the class that is a [cached_property] and whose name
    does not start with two underscores; a missing key is ignored. *)
Definition del_step (self : Randomizer) (prop : string) : Randomizer :=
  if is_cached_property prop
  then with_dict self (delete prop (__dict__ self))
  else self.

Definition props : list string :=
  List.filter (fun p => negb (String.prefix "__" p)) (map fst class_dict).

Definition _delete_cached_properties : M unit := fun self =>
  (Ok tt, fold_left del_step props self).

(** ** Properties *)

(** [population] getter *)
Definition population : M (list WeightedChoice) := fun self =>
  (Ok (_population self), self).

(** [population] setter *)
Definition set_population (other : list WeightedChoice) : M unit :=
  _delete_cached_properties ;;;
  (fun self => (Ok tt, with_population self other)).

(** [Randomizer(population, rng)] *)
Definition Randomizer_init (pop : option (list WeightedChoice))
    (rng : nat -> Q) : Randomizer :=
  match pop with
  | None => MkRandomizer [] rng 0 ∅
  | Some p => snd (set_population p (MkRandomizer [] rng 0 ∅))
  end.

Definition weights : M (list Q) :=
  cached_property "weights" PyFloats as_floats
    (p <- population ;; ret (map weight p)).

Definition return_values : M (list A) :=
  cached_property "return_values" PyValues as_values
    (p <- population ;; ret (map return_value p)).

Definition is_uniform : M bool :=
  cached_property "is_uniform" PyBool as_bool
    (w <- weights ;;
     if match w with [] => true | _ => false end then ret true
     else
       w <- weights ;;
       if (Z.of_nat (length w) <? 2)%Z then ret true
       else
         w <- weights ;;
         first_elem <- lift (getitem w 0%Z) ;;
         w <- weights ;;
         ret (forallb (fun e => Qeq_bool e first_elem) (drop 1 w))).

Definition cumulative_weights : M (list Q) :=
  cached_property "cumulative_weights" PyFloats as_floats
    (w <- weights ;; ret (accumulate w)).

Definition total_weight : M Q :=
  cached_property "total_weight" PyFloat as_float
    (w <- weights ;; ret (sum w)).

Definition is_empty : M bool :=
  t <- total_weight ;; ret (Qle0 t).

Definition normalized_weights : M (list Q) :=
  cached_property "normalized_weights" PyFloats as_floats
    (w <- weights ;;
     mapM (fun x => t <- total_weight ;; lift (truediv x t)) w).

Definition normalized_cumulative_weights : M (list Q) :=
  cached_property "normalized_cumulative_weights" PyFloats as_floats
    (w <- normalized_weights ;; ret (accumulate w)).

(** ** Picking with replacement *)

(** One draw of the uniform path:
    [self.return_values[floor(self.rng() * len(self.population))]]. *)
Definition uniform_draw : M A :=
  rv <- return_values ;;
  r <- call_rng ;;
  p <- population ;;
  lift (getitem rv (Qfloor (r * inject_Z (Z.of_nat (length p))))).

(** One draw of the weighted path:
    [self.return_values[bisect(self.normalized_cumulative_weights,
    self.rng(), 0, len(self.population) - 1)]]. *)
Definition weighted_draw : M A :=
  rv <- return_values ;;
  ncw <- normalized_cumulative_weights ;;
  r <- call_rng ;;
  p <- population ;;
  i <- lift (bisect ncw r 0%Z (Z.of_nat (length p) - 1)%Z) ;;
  lift (getitem rv i).

(** [pick_with_replacement(k)] *)
Definition pick_with_replacement (k : Z) : M (list A) :=
  e <- is_empty ;;
  if e then ret []
  else
    u <- is_uniform ;;
    if u then repeatM (Z.to_nat k) uniform_draw
    else repeatM (Z.to_nat k) weighted_draw.

(** ** Picking without replacement *)

(** The scan of one draw:
<<
    while pick_random > 0.0:
        choices_i += 1
        pick_random -= w[choices_i]
>>
    It returns the final [choices_i].  The loop is run with fuel; one more
    iteration than [w] has entries suffices ([scan_fuel]). *)
Fixpoint scan (fuel : nat) (w : list Q) (pick_random : Q) (choices_i : Z)
    : res Z :=
  if Qgt0 pick_random then
    match fuel with
    | O => Raise LoopFuel
    | S fuel' =>
        let choices_i := (choices_i + 1)%Z in
        res_bind (getitem w choices_i) (fun x =>
          scan fuel' w (pick_random - x) choices_i)
    end
  else Ok choices_i.

(** One draw, given the total [t_w] of the working weights [w] and the
    value [r] the random source returned: the lines from
    [pick_random = t_w * self.rng()] to [del choices[choices_i]]. *)
Definition draw (choices : list WeightedChoice) (w : list Q) (t_w r : Q)
    : res (A * list WeightedChoice) :=
  let pick_random := t_w * r in
  res_bind (scan (S (length w)) w pick_random (-1)%Z) (fun choices_i =>
  res_bind (getitem choices choices_i) (fun c =>
  res_bind (delitem choices choices_i) (fun choices' =>
  Ok (return_value c, choices')))).

(** The loop [for _ in repeat(None, k)] on the working copy [choices],
    with its [break]. *)
Fixpoint pick_loop (n : nat) (results : list A) (choices : list WeightedChoice)
    : M (list A * list WeightedChoice) :=
  match n with
  | O => ret (results, choices)
  | S n' =>
      let w := map weight choices in
      let t_w := sum w in
      if Qle0 t_w then ret (results, choices)
      else
        r <- call_rng ;;
        vc <- lift (draw choices w t_w r) ;;
        pick_loop n' (results ++ [fst vc]) (snd vc)
  end.

(** [copy.deepcopy] of a list of choices: an equal value that shares nothing
    with the original, which for the values of this embedding is the list
    itself. *)
Definition deepcopy (p : list WeightedChoice) : list WeightedChoice := p.

(** [pick_without_replacement(k, replenish)] *)
Definition pick_without_replacement (k : Z) (replenish : bool) : M (list A) :=
  e <- is_empty ;;
  if e then ret []
  else
    p <- population ;;
    let choices := deepcopy p in
    rc <- pick_loop (Z.to_nat k) [] choices ;;
    (if negb replenish then set_population (snd rc) else ret tt) ;;;
    ret (fst rc).

End RandomChoices.

Arguments WeightedChoice : clear implicits.
Arguments Randomizer : clear implicits.
Arguments pyval : clear implicits.
Arguments M : clear implicits.

(** ** The derived views as functions of the population

    What each derived view is, as a function of the population alone: the
    weights, their sum, their running sums, the weights divided by the total
    and the running sums of those, the return values, and whether all the
    weights are equal. *)

Section Views.

Context {A : Type}.
Implicit Types (p : list (WeightedChoice A)) (self : Randomizer A).

Fixpoint res_mapM {T U} (f : T -> res U) (l : list T) : res (list U) :=
  match l with
  | [] => Ok []
  | x :: l' =>
      res_bind (f x) (fun y => res_bind (res_mapM f l') (fun ys => Ok (y :: ys)))
  end.

Definition res_map {T U} (f : T -> U) (r : res T) : res U :=
  res_bind r (fun x => Ok (f x)).

Definition weights_of p : list Q := map weight p.
Definition return_values_of p : list A := map return_value p.
Definition total_weight_of p : Q := sum (weights_of p).
Definition is_empty_of p : bool := Qle0 (total_weight_of p).
Definition cumulative_weights_of p : list Q := accumulate (weights_of p).

Definition is_uniform_of p : bool :=
  match weights_of p with
  | [] => true
  | first_elem :: rest =>
      if (Z.of_nat (length p) <? 2)%Z then true
      else forallb (fun e => Qeq_bool e first_elem) rest
  end.

Definition normalized_weights_of p : res (list Q) :=
  res_mapM (fun x => truediv x (total_weight_of p)) (weights_of p).

Definition normalized_cumulative_weights_of p : res (list Q) :=
  res_map accumulate (normalized_weights_of p).

Inductive view :=
| Weights | ReturnValues | IsUniform | CumulativeWeights | TotalWeight
| NormalizedWeights | NormalizedCumulativeWeights.

Definition view_name (v : view) : string :=
  match v with
  | Weights => "weights"
  | ReturnValues => "return_values"
  | IsUniform => "is_uniform"
  | CumulativeWeights => "cumulative_weights"
  | TotalWeight => "total_weight"
  | NormalizedWeights => "normalized_weights"
  | NormalizedCumulativeWeights => "normalized_cumulative_weights"
  end.

(** The view as a function of the population. *)
Definition view_of (v : view) p : res (pyval A) :=
  match v with
  | Weights => Ok (PyFloats (weights_of p))
  | ReturnValues => Ok (PyValues (return_values_of p))
  | IsUniform => Ok (PyBool (is_uniform_of p))
  | CumulativeWeights => Ok (PyFloats (cumulative_weights_of p))
  | TotalWeight => Ok (PyFloat (total_weight_of p))
  | NormalizedWeights => res_map PyFloats (normalized_weights_of p)
  | NormalizedCumulativeWeights =>
      res_map PyFloats (normalized_cumulative_weights_of p)
  end.

(** Reading the view on the object. *)
Definition read_view (v : view) : M A (pyval A) :=
  match v with
  | Weights => bind weights (fun x => ret (PyFloats x))
  | ReturnValues => bind return_values (fun x => ret (PyValues x))
  | IsUniform => bind is_uniform (fun x => ret (PyBool x))
  | CumulativeWeights => bind cumulative_weights (fun x => ret (PyFloats x))
  | TotalWeight => bind total_weight (fun x => ret (PyFloat x))
  | NormalizedWeights => bind normalized_weights (fun x => ret (PyFloats x))
  | NormalizedCumulativeWeights =>
      bind normalized_cumulative_weights (fun x => ret (PyFloats x))
  end.

(** The state after a sequence of reads. *)
Definition read_views (vs : list view) self : Randomizer A :=
  fold_left (fun self v => snd (read_view v self)) vs self.

(** The cache is coherent: whatever is stored under the name of a cached
    property is the value of that view on the stored population. *)
Definition cache_ok self : Prop :=
  forall v x, __dict__ self !! view_name v = Some x ->
    view_of v (_population self) = Ok x.

(** [self'] differs from [self] in its cache, which is coherent, and in the
    number [n'] of calls of the random source. *)
Definition frame self self' (n' : nat) : Prop :=
  _population self' = _population self /\ rng self' = rng self /\
  rng_calls self' = n' /\ cache_ok self'.

(** On a coherent cache the method [c] computes [f] of the population, the
    random source and the number of calls made. *)
Definition sim {T} (c : M A T)
    (f : list (WeightedChoice A) -> (nat -> Q) -> nat -> res T * nat) : Prop :=
  forall self, cache_ok self ->
    exists self',
      c self = (fst (f (_population self) (rng self) (rng_calls self)), self') /\
      frame self self' (snd (f (_population self) (rng self) (rng_calls self))).

(** The method [c] reads the object: it computes [h] of the population and
    calls the random source not. *)
Definition reads {T} (c : M A T) (h : list (WeightedChoice A) -> res T) : Prop :=
  sim c (fun p _ n => (h p, n)).

(** The method [c] leaves a coherent cache coherent, whether or not it
    raises. *)
Definition coherent {T} (c : M A T) : Prop :=
  forall self, cache_ok self -> cache_ok (snd (c self)).

(** The method [c] leaves the stored population as it is, whatever the
    cache holds and whether or not it raises. *)
Definition keeps {T} (c : M A T) : Prop :=
  forall self, _population (snd (c self)) = _population self.

End Views.

(** ** Inverse-CDF selection on unnormalised weights

    The index the specification describes for one draw without replacement:
    the first index [i] such that the sum of the weights through [i] is at
    least the target. *)

Fixpoint inverse_cdf_from (acc : Q) (w : list Q) (target : Q) (i : nat)
    : option nat :=
  match w with
  | [] => None
  | x :: w' =>
      if Qle_bool target (acc + x) then Some i
      else inverse_cdf_from (acc + x) w' target (S i)
  end.

Definition inverse_cdf_index (w : list Q) (target : Q) : option nat :=
  inverse_cdf_from 0 w target 0.

(** * The module over IEEE 754 binary64

    The same classes and methods, with the arithmetic of the machine: a
    [float] is a primitive binary64 number, [+], [-], [*] and [/] round to
    nearest (ties to even), comparisons are the IEEE ones. *)

Module B64.

Import PrimFloat.

(** [x > 0.0], [x <= 0.0] *)
Definition gt0 (x : float) : bool := (0 <? x)%float.
Definition le0 (x : float) : bool := (x <=? 0)%float.

(** [sum(l)] as CPython computes it up to version 3.11: from the integer
    [0], left to right. *)
Definition sum_left (l : list float) : float :=
  fold_left PrimFloat.add l 0%float.

(** [sum(l)] as CPython computes it from version 3.12 on: once the running
    total is a float, the rounding errors are accumulated in [c] (Neumaier's
    compensated summation) and added at the end when [c] is finite and not
    zero. *)
Fixpoint neumaier (f_result c : float) (l : list float) : float :=
  match l with
  | [] =>
      if negb (c =? 0)%float && (abs c <? infinity)%float
      then (f_result + c)%float else f_result
  | x :: l' =>
      let t := (f_result + x)%float in
      let c :=
        if (abs x <=? abs f_result)%float
        then (c + ((f_result - t) + x))%float
        else (c + ((x - t) + f_result))%float in
      neumaier t c l'
  end.

Definition sum_compensated (l : list float) : float :=
  match l with
  | [] => 0%float
  | x :: l' => neumaier (0 + x)%float 0%float l'
  end.

(** [sum(l)]; [py312] tells which of the two the interpreter does. *)
Definition sum (py312 : bool) (l : list float) : float :=
  if py312 then sum_compensated l else sum_left l.

(** [itertools.accumulate(l)] *)
Fixpoint accumulate_from (acc : float) (l : list float) : list float :=
  match l with
  | [] => []
  | x :: l' => (acc + x)%float :: accumulate_from (acc + x)%float l'
  end.

Definition accumulate (l : list float) : list float :=
  match l with
  | [] => []
  | x :: l' => x :: accumulate_from x l'
  end.

(** [x / y] *)
Definition truediv (x y : float) : res float :=
  if (y =? 0)%float then Raise ZeroDivisionError else Ok (x / y)%float.

(** [math.floor(x)]: the integer floor of a finite float; an infinity raises
    [OverflowError] and a NaN [ValueError]. *)
Definition floor (x : float) : res Z :=
  match FloatOps.Prim2SF x with
  | SpecFloat.S754_zero _ => Ok 0%Z
  | SpecFloat.S754_infinity _ => Raise OverflowError
  | SpecFloat.S754_nan => Raise ValueError
  | SpecFloat.S754_finite s m e =>
      Ok (Z.shiftl (if s then Z.neg m else Z.pos m) e)
  end.

(** The float a length becomes in [float * int]. *)
Definition of_len (n : nat) : float :=
  of_uint63 (Uint63.of_Z (Z.of_nat n)).

(** [bisect.bisect(a, x, lo, hi)] *)
Fixpoint bisect_loop (fuel : nat) (a : list float) (x : float) (lo hi : Z)
    : res Z :=
  if (lo <? hi)%Z then
    match fuel with
    | O => Raise LoopFuel
    | S fuel' =>
        let mid := ((lo + hi) / 2)%Z in
        res_bind (getitem a mid) (fun a_mid =>
          if (x <? a_mid)%float then bisect_loop fuel' a x lo mid
          else bisect_loop fuel' a x (mid + 1)%Z hi)
    end
  else Ok lo.

Definition bisect (a : list float) (x : float) (lo hi : Z) : res Z :=
  if (lo <? 0)%Z then Raise ValueError
  else bisect_loop (Z.to_nat (hi - lo)) a x lo hi.

Section RandomChoices.

Context {A : Type}.

(** Which [sum] the interpreter has. *)
Variable py312 : bool.

Record WeightedChoice := MkWeightedChoice {
  return_value : A;
  weight : float
}.

Definition WeightedChoice_post_init (self : WeightedChoice) : res unit :=
  if gt0 (weight self) then Ok tt else Raise (AssertionError weight_message).

Definition WeightedChoice_init (v : A) (w : float) : res WeightedChoice :=
  let self := MkWeightedChoice v w in
  res_bind (WeightedChoice_post_init self) (fun _ => Ok self).

Definition UniformChoice_init (v : A) : res WeightedChoice :=
  Ok (MkWeightedChoice v 1%float).

Inductive pyval :=
| PyFloats (l : list float)
| PyValues (l : list A)
| PyBool (b : bool)
| PyFloat (x : float).

Definition as_floats (v : pyval) : option (list float) :=
  match v with PyFloats l => Some l | _ => None end.
Definition as_values (v : pyval) : option (list A) :=
  match v with PyValues l => Some l | _ => None end.
Definition as_bool (v : pyval) : option bool :=
  match v with PyBool b => Some b | _ => None end.
Definition as_float (v : pyval) : option float :=
  match v with PyFloat x => Some x | _ => None end.

Record Randomizer := MkRandomizer {
  _population : list WeightedChoice;
  rng : nat -> float;
  rng_calls : nat;
  __dict__ : gmap string pyval
}.

Definition with_population (self : Randomizer) (p : list WeightedChoice) :=
  MkRandomizer p (rng self) (rng_calls self) (__dict__ self).
Definition with_dict (self : Randomizer) (d : gmap string pyval) :=
  MkRandomizer (_population self) (rng self) (rng_calls self) d.
Definition with_rng_calls (self : Randomizer) (n : nat) :=
  MkRandomizer (_population self) (rng self) n (__dict__ self).

Definition M (T : Type) : Type := Randomizer -> res T * Randomizer.

Definition ret {T} (v : T) : M T := fun self => (Ok v, self).

Definition bind {T U} (c : M T) (k : T -> M U) : M U := fun self =>
  match c self with
  | (Ok v, self') => k v self'
  | (Raise e, self') => (Raise e, self')
  end.

Definition lift {T} (r : res T) : M T := fun self => (r, self).

Notation "x <- c ;; k" := (bind c (fun x => k))
  (at level 100, c at next level, right associativity).
Notation "c ;;; k" := (bind c (fun _ => k))
  (at level 100, right associativity).

Fixpoint mapM {T U} (f : T -> M U) (l : list T) : M (list U) :=
  match l with
  | [] => ret []
  | x :: l' => y <- f x ;; ys <- mapM f l' ;; ret (y :: ys)
  end.

Fixpoint repeatM {T} (n : nat) (e : M T) : M (list T) :=
  match n with
  | O => ret []
  | S n' => y <- e ;; ys <- repeatM n' e ;; ret (y :: ys)
  end.

Definition call_rng : M float := fun self =>
  (Ok (rng self (rng_calls self)), with_rng_calls self (S (rng_calls self))).

Definition cached_property {T} (name : string)
    (inj : T -> pyval) (proj : pyval -> option T) (func : M T) : M T :=
  fun self =>
    match __dict__ self !! name with
    | Some v =>
        match proj v with
        | Some x => (Ok x, self)
        | None => (Raise TypeError, self)
        end
    | None =>
        match func self with
        | (Ok x, self') => (Ok x, with_dict self' (<[name := inj x]> (__dict__ self')))
        | (Raise e, self') => (Raise e, self')
        end
    end.

Definition del_step (self : Randomizer) (prop : string) : Randomizer :=
  if is_cached_property prop
  then with_dict self (delete prop (__dict__ self))
  else self.

Definition _delete_cached_properties : M unit := fun self =>
  (Ok tt, fold_left del_step props self).

Definition population : M (list WeightedChoice) := fun self =>
  (Ok (_population self), self).

Definition set_population (other : list WeightedChoice) : M unit :=
  _delete_cached_properties ;;;
  (fun self => (Ok tt, with_population self other)).

Definition Randomizer_init (pop : option (list WeightedChoice))
    (rng : nat -> float) : Randomizer :=
  match pop with
  | None => MkRandomizer [] rng 0 ∅
  | Some p => snd (set_population p (MkRandomizer [] rng 0 ∅))
  end.

Definition weights : M (list float) :=
  cached_property "weights" PyFloats as_floats
    (p <- population ;; ret (map weight p)).

Definition return_values : M (list A) :=
  cached_property "return_values" PyValues as_values
    (p <- population ;; ret (map return_value p)).

Definition is_uniform : M bool :=
  cached_property "is_uniform" PyBool as_bool
    (w <- weights ;;
     if match w with [] => true | _ => false end then ret true
     else
       w <- weights ;;
       if (Z.of_nat (length w) <? 2)%Z then ret true
       else
         w <- weights ;;
         first_elem <- lift (getitem w 0%Z) ;;
         w <- weights ;;
         ret (forallb (fun e => (e =? first_elem)%float) (drop 1 w))).

Definition cumulative_weights : M (list float) :=
  cached_property "cumulative_weights" PyFloats as_floats
    (w <- weights ;; ret (accumulate w)).

Definition total_weight : M float :=
  cached_property "total_weight" PyFloat as_float
    (w <- weights ;; ret (sum py312 w)).

Definition is_empty : M bool :=
  t <- total_weight ;; ret (le0 t).

Definition normalized_weights : M (list float) :=
  cached_property "normalized_weights" PyFloats as_floats
    (w <- weights ;;
     mapM (fun x => t <- total_weight ;; lift (truediv x t)) w).

Definition normalized_cumulative_weights : M (list float) :=
  cached_property "normalized_cumulative_weights" PyFloats as_floats
    (w <- normalized_weights ;; ret (accumulate w)).

Definition uniform_draw : M A :=
  rv <- return_values ;;
  r <- call_rng ;;
  p <- population ;;
  i <- lift (floor (r * of_len (length p))%float) ;;
  lift (getitem rv i).

Definition weighted_draw : M A :=
  rv <- return_values ;;
  ncw <- normalized_cumulative_weights ;;
  r <- call_rng ;;
  p <- population ;;
  i <- lift (bisect ncw r 0%Z (Z.of_nat (length p) - 1)%Z) ;;
  lift (getitem rv i).

Definition pick_with_replacement (k : Z) : M (list A) :=
  e <- is_empty ;;
  if e then ret []
  else
    u <- is_uniform ;;
    if u then repeatM (Z.to_nat k) uniform_draw
    else repeatM (Z.to_nat k) weighted_draw.

Fixpoint scan (fuel : nat) (w : list float) (pick_random : float)
    (choices_i : Z) : res Z :=
  if gt0 pick_random then
    match fuel with
    | O => Raise LoopFuel
    | S fuel' =>
        let choices_i := (choices_i + 1)%Z in
        res_bind (getitem w choices_i) (fun x =>
          scan fuel' w (pick_random - x)%float choices_i)
    end
  else Ok choices_i.

Definition draw (choices : list WeightedChoice) (w : list float)
    (t_w r : float) : res (A * list WeightedChoice) :=
  let pick_random := (t_w * r)%float in
  res_bind (scan (S (length w)) w pick_random (-1)%Z) (fun choices_i =>
  res_bind (getitem choices choices_i) (fun c =>
  res_bind (delitem choices choices_i) (fun choices' =>
  Ok (return_value c, choices')))).

Fixpoint pick_loop (n : nat) (results : list A) (choices : list WeightedChoice)
    : M (list A * list WeightedChoice) :=
  match n with
  | O => ret (results, choices)
  | S n' =>
      let w := map weight choices in
      let t_w := sum py312 w in
      if le0 t_w then ret (results, choices)
      else
        r <- call_rng ;;
        vc <- lift (draw choices w t_w r) ;;
        pick_loop n' (results ++ [fst vc]) (snd vc)
  end.

Definition deepcopy (p : list WeightedChoice) : list WeightedChoice := p.

Definition pick_without_replacement (k : Z) (replenish : bool) : M (list A) :=
  e <- is_empty ;;
  if e then ret []
  else
    p <- population ;;
    let choices := deepcopy p in
    rc <- pick_loop (Z.to_nat k) [] choices ;;
    (if negb replenish then set_population (snd rc) else ret tt) ;;;
    ret (fst rc).

End RandomChoices.

Arguments WeightedChoice : clear implicits.
Arguments Randomizer : clear implicits.
Arguments pyval : clear implicits.
Arguments M : clear implicits.

(** The derived views as functions of the population, and the coherence of
    the cache, as for the first embedding. *)

Section Views.

Context {A : Type}.
Variable py312 : bool.
Implicit Types (p : list (WeightedChoice A)) (self : Randomizer A).

Definition weights_of p : list float := map weight p.
Definition return_values_of p : list A := map return_value p.
Definition total_weight_of p : float := sum py312 (weights_of p).
Definition is_empty_of p : bool := le0 (total_weight_of p).
Definition cumulative_weights_of p : list float := accumulate (weights_of p).

Definition is_uniform_of p : bool :=
  match weights_of p with
  | [] => true
  | first_elem :: rest =>
      if (Z.of_nat (length p) <? 2)%Z then true
      else forallb (fun e => (e =? first_elem)%float) rest
  end.

Definition normalized_weights_of p : res (list float) :=
  res_mapM (fun x => truediv x (total_weight_of p)) (weights_of p).

Definition normalized_cumulative_weights_of p : res (list float) :=
  res_map accumulate (normalized_weights_of p).

Definition view_of (v : view) p : res (pyval A) :=
  match v with
  | Weights => Ok (PyFloats (weights_of p))
  | ReturnValues => Ok (PyValues (return_values_of p))
  | IsUniform => Ok (PyBool (is_uniform_of p))
  | CumulativeWeights => Ok (PyFloats (cumulative_weights_of p))
  | TotalWeight => Ok (PyFloat (total_weight_of p))
  | NormalizedWeights => res_map PyFloats (normalized_weights_of p)
  | NormalizedCumulativeWeights =>
      res_map PyFloats (normalized_cumulative_weights_of p)
  end.

Definition cache_ok self : Prop :=
  forall v x, __dict__ self !! view_name v = Some x ->
    view_of v (_population self) = Ok x.

Definition frame self self' (n' : nat) : Prop :=
  _population self' = _population self /\ rng self' = rng self /\
  rng_calls self' = n' /\ cache_ok self'.

Definition sim {T} (c : M A T)
    (f : list (WeightedChoice A) -> (nat -> float) -> nat -> res T * nat)
    : Prop :=
  forall self, cache_ok self ->
    exists self',
      c self = (fst (f (_population self) (rng self) (rng_calls self)), self') /\
      frame self self' (snd (f (_population self) (rng self) (rng_calls self))).

Definition reads {T} (c : M A T) (h : list (WeightedChoice A) -> res T) : Prop :=
  sim c (fun p _ n => (h p, n)).

Definition coherent {T} (c : M A T) : Prop :=
  forall self, cache_ok self -> cache_ok (snd (c self)).

(** The value of one draw of the uniform path, for the value [r] of the
    random source: the return value at index [floor(r * len(population))]. *)
Definition uniform_value p (r : float) : res A :=
  res_bind (floor (r * of_len (length p))%float) (getitem (return_values_of p)).

End Views.

(** The floats nearest to [0.4], [0.8], [0.3] and [0.1], the largest float
    below [1], and the float nearest to a third. *)
Definition w04 : float := 0x1.999999999999ap-2.
Definition w08 : float := 0x1.999999999999ap-1.
Definition w03 : float := 0x1.3333333333333p-2.
Definition w01 : float := 0x1.999999999999ap-4.
Definition below_one : float := 0x1.fffffffffffffp-1.
Definition third : float := 0x1.5555555555555p-2.

End B64.

(** * Properties *)

(** ** Numbers *)

Lemma Qgt0_true x : Qgt0 x = true <-> 0 < x.
Proof.
  unfold Qgt0. rewrite negb_true_iff. split.
  - intros H. apply Qnot_le_lt. intros Hle. apply Qle_bool_iff in Hle. congruence.
  - intros H. destruct (Qle_bool x 0) eqn:E; [|done].
    apply Qle_bool_iff in E. lra.
Qed.

Lemma Qgt0_false x : Qgt0 x = false <-> x <= 0.
Proof.
  unfold Qgt0. rewrite negb_false_iff. apply Qle_bool_iff.
Qed.

Lemma Qle0_true x : Qle0 x = true <-> x <= 0.
Proof. apply Qle_bool_iff. Qed.

Lemma Qle0_false x : Qle0 x = false <-> 0 < x.
Proof.
  unfold Qle0. split.
  - intros H. apply Qnot_le_lt. intros Hle. apply Qle_bool_iff in Hle. congruence.
  - intros H. destruct (Qle_bool x 0) eqn:E; [|done].
    apply Qle_bool_iff in E. lra.
Qed.

Lemma Qltb_true x y : Qltb x y = true <-> x < y.
Proof.
  unfold Qltb. rewrite negb_true_iff. split.
  - intros H. apply Qnot_le_lt. intros Hle. apply Qle_bool_iff in Hle. congruence.
  - intros H. destruct (Qle_bool y x) eqn:E; [|done].
    apply Qle_bool_iff in E. lra.
Qed.

Lemma fold_left_Qplus l a : fold_left Qplus l a == a + sum l.
Proof.
  unfold sum. revert a. induction l as [|x l IH]; intros a; simpl.
  - lra.
  - rewrite IH, (IH (0 + x)). lra.
Qed.

Lemma sum_nil : sum [] == 0.
Proof. reflexivity. Qed.

Lemma sum_cons x l : sum (x :: l) == x + sum l.
Proof. unfold sum at 1. simpl. rewrite fold_left_Qplus. lra. Qed.

Lemma sum_app l1 l2 : sum (l1 ++ l2) == sum l1 + sum l2.
Proof.
  induction l1 as [|x l1 IH]; simpl.
  - rewrite sum_nil. lra.
  - rewrite !sum_cons, IH. lra.
Qed.

Lemma sum_pos l : Forall (fun x => 0 < x) l -> l <> [] -> 0 < sum l.
Proof.
  intros H. induction H as [|x l Hx Hl IH]; [done|]. intros _.
  rewrite sum_cons. destruct l as [|y l].
  - rewrite sum_nil. lra.
  - assert (0 < sum (y :: l)) by (apply IH; done). lra.
Qed.

(** ** The cache *)

Section Cache.

Context {A : Type}.
Implicit Types (p : list (WeightedChoice A)) (self : Randomizer A).

Lemma view_name_inj v1 v2 : view_name v1 = view_name v2 -> v1 = v2.
Proof. destruct v1, v2; simpl; intros H; first [done | discriminate H]. Qed.

Lemma frame_refl self : cache_ok self -> frame self self (rng_calls self).
Proof. by intros H. Qed.

Lemma sim_ext {T} (c : M A T) f f' :
  sim c f -> (forall p g n, f p g n = f' p g n) -> sim c f'.
Proof.
  intros Hc Hf self Hok. destruct (Hc self Hok) as (self' & E & F).
  exists self'. by rewrite <- Hf.
Qed.

Lemma reads_ext {T} (c : M A T) h h' :
  reads c h -> (forall p, h p = h' p) -> reads c h'.
Proof.
  intros Hc Hh. apply (sim_ext _ _ _ Hc). intros p _ n. by rewrite Hh.
Qed.

Lemma reads_ret {T} (v : T) : reads (A:=A) (ret v) (fun _ => Ok v).
Proof. intros self Hok. exists self. split; [done|]. by apply frame_refl. Qed.

Lemma reads_lift {T} (r : res T) : reads (A:=A) (lift r) (fun _ => r).
Proof. intros self Hok. exists self. split; [done|]. by apply frame_refl. Qed.

Lemma reads_population : reads (A:=A) population (fun p => Ok p).
Proof. intros self Hok. exists self. split; [done|]. by apply frame_refl. Qed.

Lemma sim_call_rng : sim (A:=A) call_rng (fun _ g n => (Ok (g n), S n)).
Proof.
  intros self Hok. exists (with_rng_calls self (S (rng_calls self))).
  split; [done|]. by repeat split.
Qed.

Lemma sim_bind {T U} (c : M A T) (k : T -> M A U) f g :
  sim c f -> (forall x, sim (k x) (g x)) ->
  sim (bind c k)
      (fun p r n =>
         match f p r n with
         | (Ok x, n') => g x p r n'
         | (Raise e, n') => (Raise e, n')
         end).
Proof.
  intros Hc Hk self Hok. destruct (Hc self Hok) as (s1 & E1 & P1 & R1 & N1 & C1).
  unfold bind. rewrite E1.
  destruct (f (_population self) (rng self) (rng_calls self)) as [[x|e] n'];
    simpl in *.
  - destruct (Hk x s1 C1) as (s2 & E2 & P2 & R2 & N2 & C2).
    rewrite P1, R1, N1 in E2, N2. exists s2. split; [done|].
    repeat split; [congruence|congruence|done|done].
  - exists s1. by repeat split.
Qed.

Lemma reads_bind {T U} (c : M A T) (k : T -> M A U) h h' :
  reads c h -> (forall x, reads (k x) (h' x)) ->
  reads (bind c k) (fun p => res_bind (h p) (fun x => h' x p)).
Proof.
  intros Hc Hk.
  eapply sim_ext;
    [apply (sim_bind c k _ (fun x p (_ : nat -> Q) n => (h' x p, n)) Hc Hk)|].
  intros p g n. simpl. by destruct (h p).
Qed.

Lemma reads_if {T} (b : bool) (c1 c2 : M A T) h1 h2 :
  reads c1 h1 -> reads c2 h2 ->
  reads (if b then c1 else c2) (fun p => if b then h1 p else h2 p).
Proof. by destruct b. Qed.

Lemma reads_mapM {T U} (f : T -> M A U) (h : T -> list (WeightedChoice A) -> res U) l :
  (forall x, reads (f x) (h x)) ->
  reads (mapM f l) (fun p => res_mapM (fun x => h x p) l).
Proof.
  intros Hf. induction l as [|x l IH]; simpl.
  - apply reads_ret.
  - eapply reads_ext.
    + apply reads_bind; [apply Hf|]. intros y.
      apply reads_bind; [apply IH|]. intros ys. apply reads_ret.
    + done.
Qed.

Lemma reads_cached {T} (v : view) (inj : T -> pyval A) proj func h0 h :
  (forall x, proj (inj x) = Some x) ->
  reads func h0 ->
  (forall p, h0 p = h p) ->
  (forall p, view_of v p = res_map inj (h p)) ->
  reads (cached_property (view_name v) inj proj func) h.
Proof.
  intros Hproj Hfunc Hh Hview self Hok. unfold cached_property. simpl.
  destruct (__dict__ self !! view_name v) as [y|] eqn:E.
  - apply Hok in E. rewrite Hview in E.
    destruct (h (_population self)) as [x|e]; simpl in E; [|done].
    injection E as <-. rewrite Hproj. exists self. split; [done|].
    by apply frame_refl.
  - destruct (Hfunc self Hok) as (s1 & E1 & P1 & R1 & N1 & C1). simpl in *.
    rewrite E1, Hh. destruct (h (_population self)) as [x|e] eqn:Ex.
    + eexists. split; [done|]. repeat split; simpl; [done..|].
      intros v' x'. simpl. rewrite lookup_insert. case_decide as Hv.
      * apply view_name_inj in Hv as <-. intros [= <-].
        by rewrite P1, Hview, Ex.
      * apply C1.
    + exists s1. by repeat split.
Qed.

Lemma reads_weights : reads (A:=A) weights (fun p => Ok (weights_of p)).
Proof.
  apply (reads_cached Weights) with (h0 := fun p => Ok (weights_of p)); try done.
  eapply reads_ext.
  - apply reads_bind; [apply reads_population|]. intros p. apply reads_ret.
  - done.
Qed.

Lemma reads_return_values :
  reads (A:=A) return_values (fun p => Ok (return_values_of p)).
Proof.
  apply (reads_cached ReturnValues) with (h0 := fun p => Ok (return_values_of p));
    try done.
  eapply reads_ext.
  - apply reads_bind; [apply reads_population|]. intros p. apply reads_ret.
  - done.
Qed.

Lemma reads_is_uniform : reads (A:=A) is_uniform (fun p => Ok (is_uniform_of p)).
Proof.
  eapply (reads_cached IsUniform); [done| |intros p; reflexivity|done].
  eapply reads_ext.
  - apply reads_bind; [apply reads_weights|]. intros w1.
    apply reads_if; [apply reads_ret|].
    apply reads_bind; [apply reads_weights|]. intros w2.
    apply reads_if; [apply reads_ret|].
    apply reads_bind; [apply reads_weights|]. intros w3.
    apply reads_bind; [apply reads_lift|]. intros first_elem.
    apply reads_bind; [apply reads_weights|]. intros w4. apply reads_ret.
  - intros p. unfold is_uniform_of. simpl.
    rewrite <- (length_map weight p). fold (weights_of p).
    destruct (weights_of p) as [|x l]; [done|]. simpl.
    by destruct (Z.of_nat (S (length l)) <? 2)%Z.
Qed.

Lemma reads_cumulative_weights :
  reads (A:=A) cumulative_weights (fun p => Ok (cumulative_weights_of p)).
Proof.
  apply (reads_cached CumulativeWeights)
    with (h0 := fun p => Ok (cumulative_weights_of p)); try done.
  eapply reads_ext.
  - apply reads_bind; [apply reads_weights|]. intros w. apply reads_ret.
  - done.
Qed.

Lemma reads_total_weight :
  reads (A:=A) total_weight (fun p => Ok (total_weight_of p)).
Proof.
  apply (reads_cached TotalWeight)
    with (h0 := fun p => Ok (total_weight_of p)); try done.
  eapply reads_ext.
  - apply reads_bind; [apply reads_weights|]. intros w. apply reads_ret.
  - done.
Qed.

Lemma reads_is_empty : reads (A:=A) is_empty (fun p => Ok (is_empty_of p)).
Proof.
  eapply reads_ext.
  - apply reads_bind; [apply reads_total_weight|]. intros t. apply reads_ret.
  - done.
Qed.

Lemma reads_normalized_weights :
  reads (A:=A) normalized_weights normalized_weights_of.
Proof.
  eapply (reads_cached NormalizedWeights); [done| |intros p; reflexivity|done].
  eapply reads_ext.
  - apply reads_bind; [apply reads_weights|]. intros w.
    apply reads_mapM. intros x.
    apply reads_bind; [apply reads_total_weight|]. intros t. apply reads_lift.
  - done.
Qed.

Lemma reads_normalized_cumulative_weights :
  reads (A:=A) normalized_cumulative_weights normalized_cumulative_weights_of.
Proof.
  eapply (reads_cached NormalizedCumulativeWeights);
    [done| |intros p; reflexivity|done].
  eapply reads_ext.
  - apply reads_bind; [apply reads_normalized_weights|]. intros w.
    apply reads_ret.
  - done.
Qed.

End Cache.

(** ** Invalidation *)

Section Invalidation.

Context {A : Type}.
Implicit Types (p : list (WeightedChoice A)) (self : Randomizer A).

Lemma del_fold_frame (props : list string) self :
  let self' := fold_left del_step props self in
  _population self' = _population self /\ rng self' = rng self /\
  rng_calls self' = rng_calls self.
Proof.
  revert self. induction props as [|prop props IH]; intros self; simpl; [done|].
  destruct (IH (del_step self prop)) as (P & R & N). simpl in *.
  rewrite P, R, N. unfold del_step. by destruct (is_cached_property prop).
Qed.

Lemma del_fold_absent (props : list string) self name :
  __dict__ self !! name = None ->
  __dict__ (fold_left del_step props self) !! name = None.
Proof.
  revert self. induction props as [|prop props IH]; intros self H; simpl; [done|].
  apply IH. unfold del_step. destruct (is_cached_property prop); [|done].
  simpl. rewrite lookup_delete. by case_decide.
Qed.

Lemma del_fold_deleted (props : list string) self name :
  In name props -> is_cached_property name = true ->
  __dict__ (fold_left del_step props self) !! name = None.
Proof.
  revert self. induction props as [|prop props IH]; intros self Hin Hc; [done|].
  simpl. destruct Hin as [->|Hin]; [|by apply IH].
  apply del_fold_absent. unfold del_step. rewrite Hc. simpl.
  apply lookup_delete_eq.
Qed.

(** Every cached property is among the attributes the scan visits. *)
Lemma view_name_scanned (v : view) :
  In (view_name v) props /\ is_cached_property (view_name v) = true.
Proof. destruct v; vm_compute; tauto. Qed.

Lemma delete_cached_properties_spec self :
  let self' := snd (_delete_cached_properties self) in
  fst (_delete_cached_properties self) = Ok tt /\
  _population self' = _population self /\ rng self' = rng self /\
  rng_calls self' = rng_calls self /\
  forall v, __dict__ self' !! view_name v = None.
Proof.
  unfold _delete_cached_properties. cbn [fst snd]. split; [done|].
  destruct (del_fold_frame props self) as (P & R & N).
  repeat split; [done..|]. intros v.
  destruct (view_name_scanned v) as [Hin Hc]. by apply del_fold_deleted.
Qed.

Lemma set_population_spec other self :
  let self' := snd (set_population other self) in
  fst (set_population other self) = Ok tt /\
  _population self' = other /\ rng self' = rng self /\
  rng_calls self' = rng_calls self /\
  (forall v, __dict__ self' !! view_name v = None) /\ cache_ok self'.
Proof.
  destruct (delete_cached_properties_spec self) as (E & P & R & N & D).
  unfold set_population, bind.
  destruct (_delete_cached_properties self) as [[[]|e] s1]; simpl in *; [|done].
  repeat split; [done..|]. intros v x. simpl. by rewrite D.
Qed.

Lemma Randomizer_init_ok pop g : cache_ok (Randomizer_init (A:=A) pop g).
Proof.
  destruct pop as [p|]; simpl.
  - apply set_population_spec.
  - intros v x. simpl. by rewrite lookup_empty.
Qed.

Lemma Randomizer_init_population pop g :
  _population (Randomizer_init (A:=A) pop g) = default [] pop /\
  rng (Randomizer_init pop g) = g /\ rng_calls (Randomizer_init pop g) = 0%nat.
Proof.
  destruct pop as [p|]; simpl; [|done].
  destruct (set_population_spec p (MkRandomizer [] g 0 ∅)) as (_ & P & R & N & _).
  done.
Qed.

Lemma reads_view (v : view) : reads (A:=A) (read_view v) (view_of v).
Proof.
  destruct v; simpl; (eapply reads_ext;
    [apply reads_bind;
       [first [apply reads_weights | apply reads_return_values
              | apply reads_is_uniform | apply reads_cumulative_weights
              | apply reads_total_weight | apply reads_normalized_weights
              | apply reads_normalized_cumulative_weights]
       | intros x; apply reads_ret]
    | done]).
Qed.

Lemma read_views_frame vs self :
  cache_ok self -> frame self (read_views vs self) (rng_calls self).
Proof.
  revert self. induction vs as [|v vs IH]; intros self Hok; simpl.
  - by apply frame_refl.
  - destruct (reads_view v self Hok) as (s1 & E1 & P1 & R1 & N1 & C1).
    rewrite E1. simpl in *. destruct (IH s1 C1) as (P2 & R2 & N2 & C2).
    repeat split; [congruence..|done].
Qed.

(** C7. Assigning to [population] deletes every cached property before the
    new list is stored: whatever the cache held, after the assignment the
    stored population is the new one, and every derived view ([weights],
    [return_values], [is_uniform], [cumulative_weights], [total_weight],
    [normalized_weights], [normalized_cumulative_weights]), read after any
    sequence of other reads, is the function of the new population. *)
Theorem population_setter_invalidates_cache
    self (other : list (WeightedChoice A)) (vs : list view) (v : view) :
  let self' := snd (set_population other self) in
  _population self' = other /\
  (forall v', __dict__ self' !! view_name v' = None) /\
  fst (read_view v (read_views vs self')) = view_of v other.
Proof.
  destruct (set_population_spec other self) as (_ & P & _ & _ & D & C).
  cbv zeta. split; [done|]. split; [done|].
  destruct (read_views_frame vs _ C) as (P1 & _ & _ & C1).
  destruct (reads_view v _ C1) as (s2 & E2 & _). rewrite E2.
  cbn [fst]. by rewrite P1, P.
Qed.

End Invalidation.

(** ** Construction of a choice *)

(** C2. For every value and every weight, the construction of a
    [WeightedChoice] fails with the weight error when the weight is at most
    zero, and succeeds, storing the value and the weight as given, when it is
    greater than zero; nothing else is checked, and a [UniformChoice], whose
    weight is [1], is always constructed. *)
Theorem WeightedChoice_init_weight {A : Type} (v : A) (w : Q) :
  (w <= 0 -> WeightedChoice_init v w = Raise InvalidWeightError) /\
  (0 < w -> WeightedChoice_init v w = Ok (MkWeightedChoice v w)) /\
  UniformChoice_init v = Ok (MkWeightedChoice v 1).
Proof.
  unfold WeightedChoice_init, WeightedChoice_post_init. simpl.
  repeat split.
  - intros H. apply Qgt0_false in H. by rewrite H.
  - intros H. apply Qgt0_true in H. by rewrite H.
Qed.

Lemma WeightedChoice_init_weight_witness :
  (-1 # 2 <= 0 /\ WeightedChoice_init "a" (-1 # 2) = Raise InvalidWeightError) /\
  (0 < 3 # 2 /\
   WeightedChoice_init "a" (3 # 2) = Ok (MkWeightedChoice "a" (3 # 2))).
Proof.
  split.
  - split; [lra|].
    apply (proj1 (WeightedChoice_init_weight "a" (-1 # 2))). lra.
  - split; [lra|].
    apply (proj1 (proj2 (WeightedChoice_init_weight "a" (3 # 2)))). lra.
Defined.

(** ** Normalised weights *)

Lemma accumulate_from_lookup a l i x :
  accumulate_from a l !! i = Some x -> x == a + sum (take (S i) l).
Proof.
  revert a i. induction l as [|y l IH]; intros a i; [done|].
  destruct i as [|i]; simpl.
  - intros [= <-]. rewrite take_0, sum_cons, sum_nil. lra.
  - intros H. apply IH in H. rewrite H. change (take (S (S i)) (y :: l))
      with (y :: take (S i) l). rewrite (sum_cons y). lra.
Qed.

Lemma accumulate_lookup l i x :
  accumulate l !! i = Some x -> x == sum (take (S i) l).
Proof.
  destruct l as [|y l]; [done|]. destruct i as [|i]; simpl.
  - intros [= <-]. rewrite take_0, sum_cons, sum_nil. lra.
  - intros H. apply accumulate_from_lookup in H. rewrite H.
    change (take (S (S i)) (y :: l)) with (y :: take (S i) l).
    rewrite (sum_cons y). lra.
Qed.

Lemma length_accumulate_from a l : length (accumulate_from a l) = length l.
Proof. revert a. induction l as [|y l IH]; intros a; simpl; [done|]. by rewrite IH. Qed.

Lemma length_accumulate l : length (accumulate l) = length l.
Proof. destruct l; simpl; [done|]. by rewrite length_accumulate_from. Qed.

Lemma sum_take_S l i y :
  l !! i = Some y -> sum (take (S i) l) == sum (take i l) + y.
Proof.
  intros H. rewrite (take_S_r _ _ _ H), sum_app, sum_cons, sum_nil. lra.
Qed.

Lemma res_mapM_truediv t l :
  ~ t == 0 ->
  res_mapM (fun x => truediv x t) l = Ok (map (fun x => x / t) l).
Proof.
  intros Ht. induction l as [|x l IH]; simpl; [done|].
  rewrite IH. unfold truediv. destruct (Qeq_bool t 0) eqn:E; [|done].
  by apply Qeq_bool_iff in E.
Qed.

Lemma sum_map_div t l : ~ t == 0 -> sum (map (fun x => x / t) l) == sum l / t.
Proof.
  intros Ht. induction l as [|x l IH]; simpl.
  - rewrite sum_nil. field. done.
  - rewrite !sum_cons, IH. field. done.
Qed.

Section Normalised.

Context {A : Type}.
Implicit Types (p : list (WeightedChoice A)) (self : Randomizer A).

Lemma normalized_weights_of_ok p :
  0 < total_weight_of p ->
  normalized_weights_of p =
    Ok (map (fun x => x / total_weight_of p) (weights_of p)).
Proof.
  intros Ht. apply res_mapM_truediv. lra.
Qed.

Lemma total_weight_pos p :
  p <> [] -> Forall (fun c => 0 < weight c) p -> 0 < total_weight_of p.
Proof.
  intros Hne Hpos. apply sum_pos.
  - unfold weights_of. by apply Forall_map.
  - unfold weights_of. by destruct p.
Qed.

(** C8. For every non-empty population whose weights are all positive, the
    normalised weights sum to [1], the last of the normalised cumulative
    weights is [1] (over the exact rationals both equalities are exact),
    and the normalised cumulative weights never decrease. *)
Theorem normalized_weights_sum_to_one self :
  cache_ok self ->
  _population self <> [] ->
  Forall (fun c => 0 < weight c) (_population self) ->
  exists nw ncw : list Q,
    fst (normalized_weights self) = Ok nw /\
    fst (normalized_cumulative_weights self) = Ok ncw /\
    sum nw == 1 /\
    (exists x, last ncw = Some x /\ x == 1) /\
    (forall i x y, ncw !! i = Some x -> ncw !! S i = Some y -> x <= y).
Proof.
  intros Hok Hne Hpos.
  pose proof (total_weight_pos _ Hne Hpos) as Ht.
  destruct (reads_normalized_weights self Hok) as (s1 & E1 & _).
  destruct (reads_normalized_cumulative_weights self Hok) as (s2 & E2 & _).
  rewrite E1, E2. cbn [fst]. unfold normalized_cumulative_weights_of.
  rewrite (normalized_weights_of_ok _ Ht). simpl.
  set (t := total_weight_of (_population self)) in *.
  set (nw := map (fun x => x / t) (weights_of (_population self))).
  assert (Hsum : sum nw == 1).
  { unfold nw. rewrite sum_map_div by lra. fold (total_weight_of (_population self)).
    fold t. field. lra. }
  assert (Hnn : Forall (fun x => 0 <= x) nw).
  { unfold nw, weights_of. rewrite map_map. apply Forall_map.
    eapply Forall_impl; [exact Hpos|]. intros c Hc. simpl in *.
    apply Qlt_le_weak. apply Qlt_shift_div_l; [exact Ht|]. by rewrite Qmult_0_l. }
  assert (Hlen : nw <> []).
  { unfold nw, weights_of. by destruct (_population self). }
  exists nw, (accumulate nw). repeat split; [done| |].
  - rewrite last_lookup. rewrite length_accumulate.
    destruct (accumulate nw !! Nat.pred (length nw)) as [x|] eqn:E.
    + exists x. split; [done|]. apply accumulate_lookup in E.
      rewrite E, firstn_all2; [done|]. destruct nw; simpl; [done|lia].
    + apply lookup_ge_None in E. rewrite length_accumulate in E.
      destruct nw; simpl in *; [done|lia].
  - intros i x y Hx Hy.
    assert (Hi : (S i < length nw)%nat).
    { apply lookup_lt_Some in Hy. by rewrite length_accumulate in Hy. }
    destruct (lookup_lt_is_Some_2 nw (S i) Hi) as [z Hz].
    apply accumulate_lookup in Hx, Hy.
    rewrite Hx, Hy, (sum_take_S _ _ _ Hz).
    assert (0 <= z).
    { rewrite Forall_forall in Hnn. apply Hnn.
      by eapply list_elem_of_lookup_2. }
    lra.
Qed.

End Normalised.

Lemma normalized_weights_sum_to_one_witness :
  let self :=
    Randomizer_init
      (Some [MkWeightedChoice "a" 1; MkWeightedChoice "b" 3]) (fun _ => 0) in
  exists nw ncw : list Q,
    fst (normalized_weights self) = Ok nw /\
    fst (normalized_cumulative_weights self) = Ok ncw /\
    sum nw == 1 /\
    (exists x, last ncw = Some x /\ x == 1) /\
    (forall i x y, ncw !! i = Some x -> ncw !! S i = Some y -> x <= y).
Proof.
  intros self. apply (normalized_weights_sum_to_one self).
  - apply Randomizer_init_ok.
  - vm_compute. discriminate.
  - vm_compute. repeat constructor.
Defined.

(** ** The scan of one draw *)

Lemma py_index_nonneg n (i : nat) :
  (i < n)%nat -> py_index n (Z.of_nat i) = Some i.
Proof.
  intros H. unfold py_index.
  destruct (Z.leb_spec 0 (Z.of_nat i)); [|lia].
  destruct (Z.ltb_spec (Z.of_nat i) (Z.of_nat n)); [|lia].
  by rewrite Nat2Z.id.
Qed.

Lemma py_index_last n : (0 < n)%nat -> py_index n (-1) = Some (Nat.pred n).
Proof.
  intros H. unfold py_index. simpl.
  destruct (Z.leb_spec (- Z.of_nat n) (-1)); [|lia]. f_equal. lia.
Qed.

Lemma getitem_nonneg {T} (l : list T) (i : nat) x :
  l !! i = Some x -> getitem l (Z.of_nat i) = Ok x.
Proof.
  intros H. unfold getitem.
  rewrite py_index_nonneg by (by eapply lookup_lt_Some). by rewrite H.
Qed.

Lemma delitem_nonneg {T} (l : list T) (i : nat) :
  (i < length l)%nat -> delitem l (Z.of_nat i) = Ok (delete i l).
Proof. intros H. unfold delitem. by rewrite py_index_nonneg. Qed.

Lemma getitem_last {T} (l : list T) x : getitem (l ++ [x]) (-1) = Ok x.
Proof.
  unfold getitem. rewrite py_index_last by (rewrite length_app; simpl; lia).
  rewrite length_app. simpl. replace (Nat.pred (length l + 1)) with (length l) by lia.
  by rewrite list_lookup_middle.
Qed.

Lemma delitem_last {T} (l : list T) x : delitem (l ++ [x]) (-1) = Ok l.
Proof.
  unfold delitem. rewrite py_index_last by (rewrite length_app; simpl; lia).
  rewrite length_app. simpl. replace (Nat.pred (length l + 1)) with (length l) by lia.
  f_equal. by rewrite delete_middle, app_nil_r.
Qed.

(** A target that is not positive ends the scan before it starts. *)
Lemma scan_nonpositive fuel w pick_random choices_i :
  pick_random <= 0 -> scan fuel w pick_random choices_i = Ok choices_i.
Proof.
  intros H. apply Qgt0_false in H. destruct fuel; simpl; by rewrite H.
Qed.

(** ** The loops return *)

Lemma scan_fuel_from fuel w pick_random choices_i :
  (-1 <= choices_i)%Z -> (choices_i + 1 <= Z.of_nat (length w))%Z ->
  (Z.of_nat (length w) - (choices_i + 1) < Z.of_nat fuel)%Z ->
  scan fuel w pick_random choices_i <> Raise LoopFuel.
Proof.
  revert pick_random choices_i.
  induction fuel as [|fuel IH]; intros pick_random choices_i Hlo Hhi Hfuel;
    [lia|].
  simpl. destruct (Qgt0 pick_random); [|done].
  destruct (decide (choices_i + 1 < Z.of_nat (length w))%Z) as [Hlt|Hge].
  - destruct (lookup_lt_is_Some_2 w (Z.to_nat (choices_i + 1)) ltac:(lia))
      as [x Hx].
    apply getitem_nonneg in Hx. rewrite Z2Nat.id in Hx by lia. rewrite Hx.
    simpl. apply IH; lia.
  - unfold getitem, py_index.
    destruct (Z.leb_spec 0 (choices_i + 1)); [|lia].
    by destruct (Z.ltb_spec (choices_i + 1) (Z.of_nat (length w))); [lia|].
Qed.

(** The scan of a draw never runs out of the fuel it is given: it stops at
    an index or raises [IndexError] past the end of the weights. *)
Lemma scan_fuel w pick_random :
  scan (S (length w)) w pick_random (-1) <> Raise LoopFuel.
Proof. apply scan_fuel_from; lia. Qed.

Lemma bisect_loop_fuel fuel a x lo hi :
  (Z.to_nat (hi - lo) <= fuel)%nat ->
  bisect_loop fuel a x lo hi <> Raise LoopFuel.
Proof.
  revert lo hi. induction fuel as [|fuel IH]; intros lo hi Hfuel; simpl.
  - by destruct (Z.ltb_spec lo hi); [lia|].
  - destruct (Z.ltb_spec lo hi) as [Hlt|Hge]; [|done].
    assert (Hmid : (lo <= (lo + hi) / 2 < hi)%Z).
    { split; [apply Z.div_le_lower_bound; lia|apply Z.div_lt_upper_bound; lia]. }
    unfold getitem.
    destruct (py_index (length a) ((lo + hi) / 2)) as [j|]; [|done].
    destruct (a !! j) as [y|]; [|done]. simpl.
    destruct (Qltb x y); apply IH; lia.
Qed.

(** ** Picking without replacement *)

Section Without.

Context {A : Type}.
Implicit Types (p choices : list (WeightedChoice A)) (self : Randomizer A).

Lemma with_rng_calls_id self : with_rng_calls self (rng_calls self) = self.
Proof. by destruct self. Qed.

(** A draw of exactly zero selects and removes the last entry. *)
Lemma draw_zero init (c : WeightedChoice A) w t_w r :
  t_w * r <= 0 ->
  draw (init ++ [c]) w t_w r = Ok (return_value c, init).
Proof.
  intros H. unfold draw. rewrite scan_nonpositive by done. simpl.
  by rewrite getitem_last, delitem_last.
Qed.

(** One iteration of the loop whose draw is exactly zero. *)
Lemma pick_loop_zero_draw n results init (c : WeightedChoice A) self :
  Forall (fun c => 0 < weight c) (init ++ [c]) ->
  rng self (rng_calls self) == 0 ->
  pick_loop (S n) results (init ++ [c]) self =
    pick_loop n (results ++ [return_value c]) init
      (with_rng_calls self (S (rng_calls self))).
Proof.
  intros Hpos Hr.
  assert (Ht : 0 < sum (map weight (init ++ [c]))).
  { apply sum_pos; [by apply Forall_map|]. by destruct init. }
  cbn [pick_loop]. apply Qle0_false in Ht as Hf. rewrite Hf.
  unfold bind, call_rng, lift. rewrite draw_zero; [done|].
  rewrite Hr. lra.
Qed.

(** C9. When the random source returns exactly zero for a draw, the scan
    leaves its index at [-1], and the draw selects and removes the last
    entry of the working copy: its return value is appended to the results
    and the working copy that remains is the one without its last entry,
    whereas inverse-CDF selection would take the first entry.  On a sampler
    that stores such a population, [pick_without_replacement(1,
    replenish=False)] returns the last return value and stores the
    population without its last entry. *)
Theorem zero_draw_selects_last n results init (c : WeightedChoice A) self :
  let choices := init ++ [c] in
  let w := map weight choices in
  let r := rng self (rng_calls self) in
  Forall (fun c => 0 < weight c) choices ->
  r == 0 ->
  scan (S (length w)) w (sum w * r) (-1) = Ok (-1)%Z /\
  draw choices w (sum w) r = Ok (return_value c, init) /\
  pick_loop 1 results choices self =
    (Ok (results ++ [return_value c], init),
     with_rng_calls self (S (rng_calls self))) /\
  pick_loop (S n) results choices self =
    pick_loop n (results ++ [return_value c]) init
      (with_rng_calls self (S (rng_calls self))) /\
  inverse_cdf_index w (sum w * r) = Some 0%nat /\
  (cache_ok self -> _population self = choices ->
   exists self',
     pick_without_replacement 1 false self = (Ok [return_value c], self') /\
     _population self' = init).
Proof.
  intros choices w r Hpos Hr. subst choices.
  assert (Hz : sum w * r <= 0) by (rewrite Hr; lra).
  split; [by apply scan_nonpositive|].
  split; [by apply draw_zero|].
  split; [by rewrite (pick_loop_zero_draw 0)|].
  split; [by apply pick_loop_zero_draw|].
  split.
  - unfold inverse_cdf_index.
    assert (Hw : exists x w', w = x :: w' /\ 0 < x).
    { unfold w. destruct init as [|c' init]; simpl.
      - exists (weight c), []. split; [done|]. by inversion Hpos.
      - eexists _, _. split; [done|]. by inversion Hpos. }
    destruct Hw as (x & w' & -> & Hx). simpl.
    destruct (Qle_bool (sum (x :: w') * r) (0 + x)) eqn:E; [done|].
    assert (~ sum (x :: w') * r <= 0 + x).
    { intros Hc. apply Qle_bool_iff in Hc. congruence. }
    lra.
  - intros Hok Hpop.
    destruct (reads_is_empty self Hok) as (s1 & E1 & P1 & R1 & N1 & C1).
    cbn [fst snd] in *.
    assert (Hne : _population self <> []).
    { rewrite Hpop. by destruct init. }
    assert (Hpos' : Forall (fun c => 0 < weight c) (_population self))
      by (by rewrite Hpop).
    pose proof (total_weight_pos _ Hne Hpos') as Ht.
    apply Qle0_false in Ht.
    unfold pick_without_replacement, bind. rewrite E1.
    unfold is_empty_of. rewrite Ht.
    unfold population at 1. unfold deepcopy. rewrite P1, Hpop.
    change (Z.to_nat 1) with 1%nat.
    rewrite (pick_loop_zero_draw 0) by (done || by rewrite R1, N1).
    cbn [pick_loop ret fst snd negb].
    set (s2 := with_rng_calls s1 _).
    destruct (set_population_spec init s2) as (Es & Ps & _).
    destruct (set_population init s2) as [[[]|e] s3]; [|done].
    by exists s3.
Qed.

End Without.

Lemma zero_draw_selects_last_witness :
  let self := Randomizer_init (A:=string) None (fun _ => 0) in
  let w := [1; 2] in
  scan 3 w (sum w * 0) (-1) = Ok (-1)%Z /\
  draw [MkWeightedChoice "a" 1; MkWeightedChoice "b" 2] w (sum w) 0
    = Ok ("b", [MkWeightedChoice "a" 1]) /\
  pick_loop 1 [] [MkWeightedChoice "a" 1; MkWeightedChoice "b" 2] self =
    (Ok (["b"], [MkWeightedChoice "a" 1]), with_rng_calls self 1).
Proof.
  intros self w.
  pose proof (zero_draw_selects_last 0 [] [MkWeightedChoice "a" 1]
                (MkWeightedChoice "b" 2) self) as H.
  destruct H as (H1 & H2 & H3 & _).
  - vm_compute. repeat constructor.
  - vm_compute. reflexivity.
  - by repeat split.
Defined.

Section WithoutWhole.

Context {A : Type}.
Implicit Types (p choices : list (WeightedChoice A)) (self : Randomizer A).

(** ** The stored population is kept *)

Lemma keeps_ret {T} (v : T) : keeps (A:=A) (ret v).
Proof. by intros self. Qed.

Lemma keeps_lift {T} (r : res T) : keeps (A:=A) (lift r).
Proof. by intros self. Qed.

Lemma keeps_population : keeps (A:=A) population.
Proof. by intros self. Qed.

Lemma keeps_call_rng : keeps (A:=A) call_rng.
Proof. by intros self. Qed.

Lemma keeps_bind {T U} (c : M A T) (k : T -> M A U) :
  keeps c -> (forall x, keeps (k x)) -> keeps (bind c k).
Proof.
  intros Hc Hk self. unfold bind. specialize (Hc self).
  destruct (c self) as [[x|e] s1]; simpl in *; [|done].
  by rewrite Hk.
Qed.

Lemma keeps_cached {T} name (inj : T -> pyval A) proj func :
  keeps func -> keeps (cached_property name inj proj func).
Proof.
  intros Hf self. unfold cached_property.
  destruct (__dict__ self !! name) as [y|].
  - by destruct (proj y).
  - specialize (Hf self). by destruct (func self) as [[x|e] s1].
Qed.

Lemma keeps_weights : keeps (A:=A) weights.
Proof.
  apply keeps_cached, keeps_bind; [apply keeps_population|].
  intros p. apply keeps_ret.
Qed.

Lemma keeps_total_weight : keeps (A:=A) total_weight.
Proof.
  apply keeps_cached, keeps_bind; [apply keeps_weights|].
  intros w. apply keeps_ret.
Qed.

Lemma keeps_is_empty : keeps (A:=A) is_empty.
Proof.
  apply keeps_bind; [apply keeps_total_weight|]. intros t. apply keeps_ret.
Qed.

Lemma keeps_pick_loop n results choices : keeps (pick_loop n results choices).
Proof.
  revert results choices. induction n as [|n IH]; intros results choices; simpl.
  - apply keeps_ret.
  - destruct (Qle0 _); [apply keeps_ret|].
    apply keeps_bind; [apply keeps_call_rng|]. intros r.
    apply keeps_bind; [apply keeps_lift|]. intros vc. apply IH.
Qed.

(** C4. For every state of the sampler (whatever its population, its random
    source and its cache) and every [k],
    [pick_without_replacement(k, replenish=True)] leaves the stored
    population as it was, whether it returns or raises: the loop works on the
    copy alone, and the copy is stored only when [replenish] is false. *)
Theorem pick_without_replacement_replenish_keeps_population self (k : Z) :
  _population (snd (pick_without_replacement k true self)) = _population self.
Proof.
  revert self. change (keeps (A:=A) (pick_without_replacement k true)).
  unfold pick_without_replacement.
  apply keeps_bind; [apply keeps_is_empty|]. intros e.
  destruct e; [apply keeps_ret|].
  apply keeps_bind; [apply keeps_population|]. intros p.
  apply keeps_bind; [apply keeps_pick_loop|]. intros rc. cbn [negb].
  apply keeps_bind; [apply keeps_ret|]. intros _. apply keeps_ret.
Qed.

(** C1, at the draw [0.0].  On the population [[(a, 1), (b, 1)]] with a
    random source that returns [0.0], the target [t * r] is [0]; the first
    index whose prefix sum is at least the target is [0], the entry [a], but
    the scan leaves its index at [-1] and the draw returns [b], the last
    entry. *)
Theorem zero_draw_is_not_inverse_cdf (a b : A) :
  let self :=
    Randomizer_init (Some [MkWeightedChoice a 1; MkWeightedChoice b 1])
      (fun _ => 0) in
  let w := [1; 1] in
  inverse_cdf_index w (sum w * 0) = Some 0%nat /\
  scan (S (length w)) w (sum w * 0) (-1) = Ok (-1)%Z /\
  fst (pick_without_replacement 1 true self) = Ok [b].
Proof. vm_compute. done. Qed.

End WithoutWhole.

(** ** Picking with replacement *)

Lemma bisect_loop_range fuel a x lo hi :
  (0 <= lo <= hi)%Z -> (hi <= Z.of_nat (length a))%Z ->
  (Z.to_nat (hi - lo) <= fuel)%nat ->
  exists i, bisect_loop fuel a x lo hi = Ok i /\ (lo <= i <= hi)%Z.
Proof.
  revert lo hi. induction fuel as [|fuel IH]; intros lo hi Hlo Hhi Hfuel.
  - simpl. destruct (Z.ltb_spec lo hi); [lia|]. exists lo. split; [done|lia].
  - simpl. destruct (Z.ltb_spec lo hi) as [Hlt|Hge];
      [|exists lo; split; [done|lia]].
    assert (Hmid : (lo <= (lo + hi) / 2 < hi)%Z).
    { split; [apply Z.div_le_lower_bound; lia|apply Z.div_lt_upper_bound; lia]. }
    set (mid := ((lo + hi) / 2)%Z) in *.
    destruct (lookup_lt_is_Some_2 a (Z.to_nat mid) ltac:(lia)) as [y Hy].
    apply getitem_nonneg in Hy. rewrite Z2Nat.id in Hy by lia. rewrite Hy.
    simpl. destruct (Qltb x y).
    + destruct (IH lo mid) as (i & Hi & Hr); [lia..|].
      exists i. split; [done|lia].
    + destruct (IH (mid + 1)%Z hi) as (i & Hi & Hr); [lia..|].
      exists i. split; [done|lia].
Qed.

(** The binary search returns, and what it returns is between [lo] and
    [hi]. *)
Lemma bisect_range a x lo hi :
  (0 <= lo <= hi)%Z -> (hi <= Z.of_nat (length a))%Z ->
  exists i, bisect a x lo hi = Ok i /\ (lo <= i <= hi)%Z.
Proof.
  intros Hlo Hhi. unfold bisect. destruct (Z.ltb_spec lo 0); [lia|].
  by apply bisect_loop_range.
Qed.

Section WithReplacement.

Context {A : Type}.
Implicit Types (p : list (WeightedChoice A)) (self : Randomizer A).

Lemma sim_uniform_draw :
  sim (A:=A) uniform_draw
    (fun p g n =>
       (getitem (return_values_of p)
          (Qfloor (g n * inject_Z (Z.of_nat (length p)))), S n)).
Proof.
  eapply sim_ext.
  - apply sim_bind; [apply reads_return_values|]. intros rv.
    apply sim_bind; [apply sim_call_rng|]. intros r.
    apply sim_bind; [apply reads_population|]. intros p.
    apply reads_lift.
  - done.
Qed.

Lemma sim_weighted_draw :
  sim (A:=A) weighted_draw
    (fun p g n =>
       match normalized_cumulative_weights_of p with
       | Ok ncw =>
           (res_bind (bisect ncw (g n) 0%Z (Z.of_nat (length p) - 1)%Z)
              (fun i => getitem (return_values_of p) i), S n)
       | Raise e => (Raise e, n)
       end).
Proof.
  eapply sim_ext.
  - apply sim_bind; [apply reads_return_values|]. intros rv.
    apply sim_bind; [apply reads_normalized_cumulative_weights|]. intros ncw.
    apply sim_bind; [apply sim_call_rng|]. intros r.
    apply sim_bind; [apply reads_population|]. intros p.
    apply sim_bind; [apply reads_lift|]. intros i.
    apply reads_lift.
  - intros p g n. simpl.
    destruct (normalized_cumulative_weights_of p) as [ncw|e]; [|done].
    by destruct (bisect ncw (g n) 0%Z (Z.of_nat (length p) - 1)%Z).
Qed.

(** [k] repetitions of a draw that succeeds on every coherent state with the
    population [p] and the random source [g], calling the source once and
    returning a value related by [R] to the value it drew. *)
Lemma repeatM_draws (body : M A A) p (g : nat -> Q) (R : Q -> A -> Prop) :
  (forall self, cache_ok self -> _population self = p -> rng self = g ->
     exists y self', body self = (Ok y, self') /\
       frame self self' (S (rng_calls self)) /\ R (g (rng_calls self)) y) ->
  forall k self, cache_ok self -> _population self = p -> rng self = g ->
    exists results self',
      repeatM k body self = (Ok results, self') /\
      frame self self' (rng_calls self + k) /\
      length results = k /\
      forall j y, results !! j = Some y -> R (g (rng_calls self + j)%nat) y.
Proof.
  intros Hbody k. induction k as [|k IH]; intros self Hok Hp Hg.
  - exists [], self. simpl. split; [done|]. split.
    + rewrite Nat.add_0_r. by apply frame_refl.
    + split; [done|]. by intros j y.
  - destruct (Hbody self Hok Hp Hg) as (y & s1 & E1 & (P1 & R1 & N1 & C1) & Hy).
    destruct (IH s1 C1) as (ys & s2 & E2 & (P2 & R2 & N2 & C2) & Hlen & Hys);
      [congruence..|].
    exists (y :: ys), s2. simpl. unfold bind. rewrite E1, E2. simpl.
    split; [done|]. split.
    + repeat split; [congruence|congruence|lia|done].
    + split; [by rewrite Hlen|]. intros [|j] z; simpl.
      * intros [= <-]. by rewrite Nat.add_0_r.
      * intros Hz. apply Hys in Hz. rewrite N1 in Hz.
        by replace (rng_calls self + S j)%nat with (S (rng_calls self) + j)%nat
          by lia.
Qed.

Lemma is_empty_false_nonempty p : is_empty_of p = false -> p <> [].
Proof. by intros H ->. Qed.

Lemma floor_index_range r (n : nat) :
  0 <= r < 1 -> (0 < n)%nat ->
  (0 <= Qfloor (r * inject_Z (Z.of_nat n)) < Z.of_nat n)%Z.
Proof.
  intros [Hr0 Hr1] Hn.
  assert (Hq : 0 < inject_Z (Z.of_nat n)).
  { change 0 with (inject_Z 0). rewrite <- Zlt_Qlt. lia. }
  set (x := r * inject_Z (Z.of_nat n)).
  assert (Hx0 : 0 <= x) by (unfold x; nra).
  assert (Hx1 : x < inject_Z (Z.of_nat n)) by (unfold x; nra).
  split.
  - change 0%Z with (Qfloor 0). by apply Qfloor_resp_le.
  - rewrite Zlt_Qlt. eapply Qle_lt_trans; [apply Qfloor_le|done].
Qed.

Lemma uniform_draws k self :
  cache_ok self -> _population self <> [] -> (forall i, 0 <= rng self i < 1) ->
  exists results self',
    repeatM k uniform_draw self = (Ok results, self') /\
    frame self self' (rng_calls self + k) /\
    length results = k /\
    forall j y, results !! j = Some y ->
      return_values_of (_population self)
        !! Z.to_nat
             (Qfloor (rng self (rng_calls self + j)
                      * inject_Z (Z.of_nat (length (_population self)))))
      = Some y.
Proof.
  intros Hok Hne Hrng.
  apply (repeatM_draws uniform_draw (_population self) (rng self)
           (fun r y =>
              return_values_of (_population self)
                !! Z.to_nat
                     (Qfloor (r * inject_Z (Z.of_nat (length (_population self)))))
              = Some y)); [|done..].
  intros s Hs Hp Hg.
  destruct (sim_uniform_draw s Hs) as (s1 & E1 & F1). cbn [fst snd] in *.
  rewrite Hp, Hg in E1.
  destruct (floor_index_range (rng self (rng_calls s))
              (length (_population self)) (Hrng _)) as [Hi0 Hi1].
  { destruct (_population self); simpl; [done|lia]. }
  set (i := Qfloor _) in *.
  destruct (lookup_lt_is_Some_2 (return_values_of (_population self)) (Z.to_nat i))
    as [y Hy].
  { unfold return_values_of. rewrite length_map. lia. }
  exists y, s1. split; [|done].
  rewrite E1. f_equal. apply getitem_nonneg in Hy.
  by rewrite Z2Nat.id in Hy by lia.
Qed.

Lemma normalized_cumulative_weights_of_ok p :
  0 < total_weight_of p ->
  exists ncw, normalized_cumulative_weights_of p = Ok ncw /\
    length ncw = length p.
Proof.
  intros Ht. unfold normalized_cumulative_weights_of.
  rewrite (normalized_weights_of_ok _ Ht). simpl. eexists. split; [done|].
  unfold weights_of. by rewrite length_accumulate, !length_map.
Qed.

Lemma weighted_draws k self :
  cache_ok self -> is_empty_of (_population self) = false ->
  exists results self',
    repeatM k weighted_draw self = (Ok results, self') /\
    frame self self' (rng_calls self + k) /\
    length results = k.
Proof.
  intros Hok He.
  pose proof (is_empty_false_nonempty _ He) as Hne.
  apply Qle0_false in He.
  destruct (normalized_cumulative_weights_of_ok _ He) as (ncw & Hncw & Hlen).
  destruct (repeatM_draws weighted_draw (_population self) (rng self)
              (fun _ _ => True)) with (k := k) (self := self)
    as (results & s' & E & F & L & _); [|done..|by exists results, s'].
  intros s Hs Hp Hg.
  destruct (sim_weighted_draw s Hs) as (s1 & E1 & F1).
  rewrite Hp, Hg, Hncw in E1, F1. cbn [fst snd] in *.
  destruct (bisect_range ncw (rng self (rng_calls s)) 0
              (Z.of_nat (length (_population self)) - 1)) as (i & Hi & Hr).
  { destruct (_population self); simpl in *; [done|lia]. }
  { lia. }
  rewrite Hi in E1. simpl in E1.
  destruct (lookup_lt_is_Some_2 (return_values_of (_population self)) (Z.to_nat i))
    as [y Hy].
  { unfold return_values_of. rewrite length_map. lia. }
  apply getitem_nonneg in Hy. rewrite Z2Nat.id in Hy by lia.
  rewrite Hy in E1. by exists y, s1.
Qed.

End WithReplacement.

Section WithReplacementWhole.

Context {A : Type}.
Implicit Types (p : list (WeightedChoice A)) (self : Randomizer A).

Lemma is_empty_read self b :
  cache_ok self -> fst (is_empty self) = Ok b ->
  is_empty_of (_population self) = b /\
  exists s1, is_empty self = (Ok b, s1) /\ frame self s1 (rng_calls self).
Proof.
  intros Hok H. destruct (reads_is_empty self Hok) as (s1 & E1 & F1).
  rewrite E1 in H. cbn [fst snd] in *. injection H as H.
  split; [done|]. exists s1. by rewrite E1, H.
Qed.

Lemma is_uniform_read self b :
  cache_ok self -> fst (is_uniform self) = Ok b ->
  is_uniform_of (_population self) = b.
Proof.
  intros Hok H. destruct (reads_is_uniform self Hok) as (s1 & E1 & F1).
  rewrite E1 in H. cbn [fst snd] in *. by injection H as H.
Qed.

(** C10. On a sampler that is not empty, with a random source with values in
    [[0, 1)], [pick_with_replacement(k)] returns exactly [k] values for every
    [k >= 0], after exactly [k] calls of the random source, on the uniform
    path and on the weighted path alike. *)
Theorem pick_with_replacement_length self (k : Z) :
  cache_ok self ->
  fst (is_empty self) = Ok false ->
  (forall i, 0 <= rng self i < 1) ->
  (0 <= k)%Z ->
  exists results self',
    pick_with_replacement k self = (Ok results, self') /\
    Z.of_nat (length results) = k /\
    Z.of_nat (rng_calls self') = (Z.of_nat (rng_calls self) + k)%Z.
Proof.
  intros Hok He Hrng Hk.
  destruct (is_empty_read self false Hok He) as (He' & s1 & E1 & P1 & R1 & N1 & C1).
  destruct (reads_is_uniform s1 C1) as (s2 & E2 & P2 & R2 & N2 & C2).
  cbn [fst snd] in *.
  unfold pick_with_replacement, bind. rewrite E1, E2.
  destruct (is_uniform_of (_population s1)).
  - destruct (uniform_draws (Z.to_nat k) s2 C2)
      as (results & s3 & E3 & (P3 & R3 & N3 & C3) & Hlen & _).
    { rewrite P2, P1. by apply is_empty_false_nonempty. }
    { by rewrite R2, R1. }
    exists results, s3. rewrite E3. split; [done|]. lia.
  - destruct (weighted_draws (Z.to_nat k) s2 C2)
      as (results & s3 & E3 & (P3 & R3 & N3 & C3) & Hlen).
    { by rewrite P2, P1. }
    exists results, s3. rewrite E3. split; [done|]. lia.
Qed.

(** C5. On the population [[(a, 1), (b, 3)]] with a random source that always
    returns [0.9], the normalised cumulative weights are [[0.25, 1.0]], the
    search for the insertion point of [0.9] between the indices [0] and [1]
    returns [1], and [pick_with_replacement(1)] returns [[b]]. *)
Theorem pick_with_replacement_weighted_example (a b : A) :
  let self :=
    Randomizer_init (Some [MkWeightedChoice a 1; MkWeightedChoice b 3])
      (fun _ => 9 # 10) in
  (exists ncw,
     fst (normalized_cumulative_weights self) = Ok ncw /\
     Forall2 Qeq ncw [1 # 4; 1] /\
     bisect ncw (9 # 10) 0 1 = Ok 1%Z) /\
  fst (is_uniform self) = Ok false /\
  fst (pick_with_replacement 1 self) = Ok [b].
Proof.
  intros self. split; [|split; vm_compute; reflexivity].
  eexists. split; [vm_compute; reflexivity|]. split.
  - repeat constructor; reflexivity.
  - vm_compute. reflexivity.
Qed.

End WithReplacementWhole.

Lemma pick_with_replacement_length_witness :
  let self :=
    Randomizer_init
      (Some [MkWeightedChoice "a" 1; MkWeightedChoice "b" 3])
      (fun i => if Nat.even i then 9 # 10 else 0) in
  exists results self',
    pick_with_replacement 3 self = (Ok results, self') /\
    Z.of_nat (length results) = 3%Z /\
    Z.of_nat (rng_calls self') = (Z.of_nat (rng_calls self) + 3)%Z.
Proof.
  intros self. apply (pick_with_replacement_length self 3).
  - apply Randomizer_init_ok.
  - vm_compute. reflexivity.
  - intros i. subst self.
    rewrite (proj1 (proj2 (Randomizer_init_population _ _))).
    destruct (Nat.even i); lra.
  - lia.
Defined.

(** ** Coherence of the cache is an invariant of the object *)

Section Coherence.

Context {A : Type}.
Implicit Types (p : list (WeightedChoice A)) (self : Randomizer A).

Lemma coherent_sim {T} (c : M A T) f : sim c f -> coherent c.
Proof.
  intros Hc self Hok. destruct (Hc self Hok) as (s1 & E1 & _ & _ & _ & C1).
  by rewrite E1.
Qed.

Lemma coherent_bind {T U} (c : M A T) (k : T -> M A U) :
  coherent c -> (forall x, coherent (k x)) -> coherent (bind c k).
Proof.
  intros Hc Hk self Hok. unfold bind. specialize (Hc self Hok).
  destruct (c self) as [[x|e] s1]; simpl in *; [|done]. by apply Hk.
Qed.

Lemma coherent_repeatM {T} n (e : M A T) : coherent e -> coherent (repeatM n e).
Proof.
  intros He. induction n as [|n IH]; simpl.
  - by intros self.
  - apply coherent_bind; [done|]. intros y.
    apply coherent_bind; [done|]. by intros ys self.
Qed.

Lemma coherent_pick_loop n results choices :
  coherent (pick_loop (A:=A) n results choices).
Proof.
  revert results choices. induction n as [|n IH]; intros results choices; simpl.
  - by intros self.
  - destruct (Qle0 _); [by intros self|].
    apply coherent_bind; [apply (coherent_sim _ _ sim_call_rng)|]. intros r.
    apply coherent_bind; [by intros self|]. intros vc. apply IH.
Qed.

Lemma coherent_set_population other : coherent (A:=A) (set_population other).
Proof. intros self _. apply set_population_spec. Qed.

Lemma coherent_pick_with_replacement k :
  coherent (A:=A) (pick_with_replacement k).
Proof.
  unfold pick_with_replacement.
  apply coherent_bind; [apply (coherent_sim _ _ reads_is_empty)|]. intros e.
  destruct e; [by intros self|].
  apply coherent_bind; [apply (coherent_sim _ _ reads_is_uniform)|]. intros u.
  destruct u; apply coherent_repeatM.
  - apply (coherent_sim _ _ sim_uniform_draw).
  - apply (coherent_sim _ _ sim_weighted_draw).
Qed.

Lemma coherent_pick_without_replacement k replenish :
  coherent (A:=A) (pick_without_replacement k replenish).
Proof.
  unfold pick_without_replacement.
  apply coherent_bind; [apply (coherent_sim _ _ reads_is_empty)|]. intros e.
  destruct e; [by intros self|].
  apply coherent_bind; [by intros self|]. intros p.
  apply coherent_bind; [apply coherent_pick_loop|]. intros rc.
  apply coherent_bind; [|by intros _ self].
  destruct replenish; simpl; [by intros self|apply coherent_set_population].
Qed.

End Coherence.

(** * Further properties of the module *)

(** ** What the methods leave alone *)

Section Frame.

Context {A : Type}.
Implicit Types (p choices : list (WeightedChoice A)) (self : Randomizer A).

Lemma keeps_mapM {T U} (f : T -> M A U) l :
  (forall x, keeps (f x)) -> keeps (mapM f l).
Proof.
  intros Hf. induction l as [|x l IH]; simpl; [apply keeps_ret|].
  apply keeps_bind; [apply Hf|]. intros y.
  apply keeps_bind; [apply IH|]. intros ys. apply keeps_ret.
Qed.

Lemma keeps_repeatM {T} n (e : M A T) : keeps e -> keeps (repeatM n e).
Proof.
  intros He. induction n as [|n IH]; simpl; [apply keeps_ret|].
  apply keeps_bind; [done|]. intros y.
  apply keeps_bind; [done|]. intros ys. apply keeps_ret.
Qed.

Lemma keeps_return_values : keeps (A:=A) return_values.
Proof.
  apply keeps_cached, keeps_bind; [apply keeps_population|].
  intros p. apply keeps_ret.
Qed.

Lemma keeps_is_uniform : keeps (A:=A) is_uniform.
Proof.
  apply keeps_cached, keeps_bind; [apply keeps_weights|]. intros w1.
  destruct w1; [apply keeps_ret|].
  apply keeps_bind; [apply keeps_weights|]. intros w2.
  destruct (_ <? _)%Z; [apply keeps_ret|].
  apply keeps_bind; [apply keeps_weights|]. intros w3.
  apply keeps_bind; [apply keeps_lift|]. intros first_elem.
  apply keeps_bind; [apply keeps_weights|]. intros w4. apply keeps_ret.
Qed.

Lemma keeps_normalized_weights : keeps (A:=A) normalized_weights.
Proof.
  apply keeps_cached, keeps_bind; [apply keeps_weights|]. intros w.
  apply keeps_mapM. intros x.
  apply keeps_bind; [apply keeps_total_weight|]. intros t. apply keeps_lift.
Qed.

Lemma keeps_normalized_cumulative_weights :
  keeps (A:=A) normalized_cumulative_weights.
Proof.
  apply keeps_cached, keeps_bind; [apply keeps_normalized_weights|].
  intros w. apply keeps_ret.
Qed.

Lemma keeps_uniform_draw : keeps (A:=A) uniform_draw.
Proof.
  apply keeps_bind; [apply keeps_return_values|]. intros rv.
  apply keeps_bind; [apply keeps_call_rng|]. intros r.
  apply keeps_bind; [apply keeps_population|]. intros p. apply keeps_lift.
Qed.

Lemma keeps_weighted_draw : keeps (A:=A) weighted_draw.
Proof.
  apply keeps_bind; [apply keeps_return_values|]. intros rv.
  apply keeps_bind; [apply keeps_normalized_cumulative_weights|]. intros ncw.
  apply keeps_bind; [apply keeps_call_rng|]. intros r.
  apply keeps_bind; [apply keeps_population|]. intros p.
  apply keeps_bind; [apply keeps_lift|]. intros i. apply keeps_lift.
Qed.

(** X1. [pick_with_replacement(k)] never changes the stored population: for
    every state of the sampler, every random source and every [k], whether
    it returns or raises, the population after the call is the one before
    it. *)
Theorem pick_with_replacement_keeps_population self (k : Z) :
  _population (snd (pick_with_replacement k self)) = _population self.
Proof.
  revert self. change (keeps (A:=A) (pick_with_replacement k)).
  unfold pick_with_replacement.
  apply keeps_bind; [apply keeps_is_empty|]. intros e.
  destruct e; [apply keeps_ret|].
  apply keeps_bind; [apply keeps_is_uniform|]. intros u.
  destruct u; apply keeps_repeatM;
    [apply keeps_uniform_draw|apply keeps_weighted_draw].
Qed.

(** X2. [pick_without_replacement] stores the working copy only when it
    returns: whenever the call raises, with [replenish] true or false, the
    stored population is the one before the call. *)
Theorem pick_without_replacement_raise_keeps_population
    self (k : Z) (replenish : bool) (e : exn) :
  fst (pick_without_replacement k replenish self) = Raise e ->
  _population (snd (pick_without_replacement k replenish self))
  = _population self.
Proof.
  unfold pick_without_replacement, bind.
  pose proof (keeps_is_empty self) as K1.
  destruct (is_empty self) as [[b|e1] s1]; cbn [fst snd] in *; [|done].
  destruct b; [done|]. unfold population. cbv beta zeta.
  pose proof (keeps_pick_loop (Z.to_nat k) [] (deepcopy (_population s1)) s1)
    as K2.
  destruct (pick_loop _ _ _ s1) as [[rc|e2] s2]; cbn [fst snd] in *.
  - destruct replenish; cbn [negb]; [done|].
    destruct (set_population_spec (snd rc) s2) as (Es & _).
    by destruct (set_population (snd rc) s2) as [[[]|e3] s3].
  - intros _. congruence.
Qed.

End Frame.

Lemma pick_without_replacement_raise_keeps_population_witness :
  let self :=
    Randomizer_init (Some [MkWeightedChoice "a" 1; MkWeightedChoice "b" 3])
      (fun _ => 2) in
  fst (pick_without_replacement 1 false self) = Raise IndexError /\
  _population (snd (pick_without_replacement 1 false self)) = _population self.
Proof.
  intros self. split; [vm_compute; reflexivity|].
  apply (pick_without_replacement_raise_keeps_population self 1 false IndexError).
  vm_compute. reflexivity.
Defined.

(** ** Empty samplers and empty requests *)

Section Edges.

Context {A : Type}.
Implicit Types (p choices : list (WeightedChoice A)) (self : Randomizer A).

(** X3. On a sampler whose [is_empty] is true, both picking methods return
    the empty list for every [k], without calling the random source and
    without changing the stored population, whatever [replenish] is. *)
Theorem empty_sampler_picks_nothing self (k : Z) (replenish : bool) :
  cache_ok self ->
  fst (is_empty self) = Ok true ->
  (exists s',
     pick_with_replacement k self = (Ok [], s') /\
     rng_calls s' = rng_calls self /\ _population s' = _population self) /\
  (exists s',
     pick_without_replacement k replenish self = (Ok [], s') /\
     rng_calls s' = rng_calls self /\ _population s' = _population self).
Proof.
  intros Hok He.
  destruct (is_empty_read self true Hok He) as (_ & s1 & E1 & P1 & _ & N1 & _).
  unfold pick_with_replacement, pick_without_replacement, bind. rewrite E1.
  split; by exists s1.
Qed.

(** X4. For [k <= 0] both picking methods return the empty list without
    calling the random source, and the stored population is equal to the one
    before the call, also when [replenish] is false (the copy that is stored
    then has lost nothing). *)
Theorem nonpositive_k_picks_nothing self (k : Z) (replenish : bool) :
  cache_ok self ->
  (k <= 0)%Z ->
  (exists s',
     pick_with_replacement k self = (Ok [], s') /\
     rng_calls s' = rng_calls self /\ _population s' = _population self) /\
  (exists s',
     pick_without_replacement k replenish self = (Ok [], s') /\
     rng_calls s' = rng_calls self /\ _population s' = _population self).
Proof.
  intros Hok Hk.
  destruct (reads_is_empty self Hok) as (s1 & E1 & P1 & R1 & N1 & C1).
  destruct (reads_is_uniform s1 C1) as (s2 & E2 & P2 & R2 & N2 & C2).
  cbn [fst snd] in *.
  unfold pick_with_replacement, pick_without_replacement, bind.
  rewrite E1. replace (Z.to_nat k) with 0%nat by lia.
  destruct (is_empty_of (_population self)); [split; by exists s1|].
  rewrite E2. split.
  - exists s2. destruct (is_uniform_of (_population s1)); simpl;
      (split; [done|]; split; congruence).
  - unfold population, deepcopy. cbn [pick_loop ret fst snd].
    destruct replenish; cbn [negb]; [by exists s1|].
    destruct (set_population_spec (_population s1) s1) as (Es & Ps & _ & Ns & _).
    destruct (set_population (_population s1) s1) as [[[]|e] s3]; [|done].
    exists s3. cbn [fst snd] in *. split; [done|]. split; congruence.
Qed.

Lemma is_uniform_of_iff p :
  is_uniform_of p = true <->
  forall c1 c2, c1 ∈ p -> c2 ∈ p -> weight c1 == weight c2.
Proof.
  unfold is_uniform_of, weights_of.
  destruct p as [|c p]; simpl.
  - split; [|done]. intros _ c1 c2 H. by apply elem_of_nil in H.
  - assert (Hall : forallb (fun e => Qeq_bool e (weight c)) (map weight p) = true
                   <-> forall c', c' ∈ p -> weight c' == weight c).
    { rewrite forallb_forall. split.
      - intros H c' Hc'. apply Qeq_bool_iff, H, in_map. by apply list_elem_of_In.
      - intros H x Hx. apply in_map_iff in Hx as (c' & <- & Hc').
        apply Qeq_bool_iff, H. by apply list_elem_of_In. }
    destruct (Z.ltb_spec (Z.of_nat (S (length p))) 2) as [Hlt|Hge].
    + destruct p; [|simpl in Hlt; lia]. split; [|done].
      intros _ c1 c2 H1 H2. apply list_elem_of_singleton in H1, H2.
      by subst.
    + rewrite Hall. split.
      * intros H c1 c2 H1 H2.
        assert (Hc : forall c', c' ∈ c :: p -> weight c' == weight c).
        { intros c' Hc'. apply elem_of_cons in Hc' as [->|Hc']; [done|by apply H]. }
        by rewrite (Hc c1 H1), (Hc c2 H2).
      * intros H c' Hc'. apply H; [by right|by left].
Qed.

(** X5. [is_uniform] is true exactly when any two choices of the population
    have equal weights; in particular it is true for a population of at most
    one choice. *)
Theorem is_uniform_iff_equal_weights self :
  cache_ok self ->
  exists b,
    fst (is_uniform self) = Ok b /\
    (b = true <->
     forall c1 c2, c1 ∈ _population self -> c2 ∈ _population self ->
       weight c1 == weight c2) /\
    ((length (_population self) < 2)%nat -> b = true).
Proof.
  intros Hok. destruct (reads_is_uniform self Hok) as (s1 & E1 & _).
  exists (is_uniform_of (_population self)). rewrite E1.
  split; [done|]. split; [apply is_uniform_of_iff|].
  intros Hlen. apply is_uniform_of_iff. intros c1 c2 H1 H2.
  destruct (_population self) as [|c [|c' p]]; simpl in Hlen; [| |lia].
  - by apply elem_of_nil in H1.
  - apply list_elem_of_singleton in H1, H2. by subst.
Qed.

(** X6. On a population whose weights are all positive, [is_empty] is true
    exactly when the population has no entries. *)
Theorem is_empty_iff_no_entries self :
  cache_ok self ->
  Forall (fun c => 0 < weight c) (_population self) ->
  fst (is_empty self) =
    Ok (match _population self with [] => true | _ => false end).
Proof.
  intros Hok Hpos. destruct (reads_is_empty self Hok) as (s1 & E1 & _).
  rewrite E1. cbn [fst]. f_equal.
  destruct (_population self) as [|c p] eqn:Ep; [done|].
  apply Qle0_false. apply total_weight_pos; done.
Qed.

End Edges.

Lemma empty_sampler_picks_nothing_witness :
  let self := Randomizer_init (A:=string) (Some []) (fun _ => 1 # 2) in
  (exists s',
     pick_with_replacement 3 self = (Ok [], s') /\
     rng_calls s' = rng_calls self /\ _population s' = _population self) /\
  (exists s',
     pick_without_replacement 3 false self = (Ok [], s') /\
     rng_calls s' = rng_calls self /\ _population s' = _population self).
Proof.
  intros self. apply (empty_sampler_picks_nothing self 3 false).
  - apply Randomizer_init_ok.
  - vm_compute. reflexivity.
Defined.

Lemma nonpositive_k_picks_nothing_witness :
  let self :=
    Randomizer_init (Some [MkWeightedChoice "a" 1; MkWeightedChoice "b" 3])
      (fun _ => 1 # 2) in
  (exists s',
     pick_with_replacement (-2) self = (Ok [], s') /\
     rng_calls s' = rng_calls self /\ _population s' = _population self) /\
  (exists s',
     pick_without_replacement (-2) false self = (Ok [], s') /\
     rng_calls s' = rng_calls self /\ _population s' = _population self).
Proof.
  intros self. apply (nonpositive_k_picks_nothing self (-2) false).
  - apply Randomizer_init_ok.
  - lia.
Defined.

Lemma is_uniform_iff_equal_weights_witness :
  let self :=
    Randomizer_init (Some [MkWeightedChoice "a" 1; MkWeightedChoice "b" 3])
      (fun _ => 1 # 2) in
  exists b,
    fst (is_uniform self) = Ok b /\
    (b = true <->
     forall c1 c2, c1 ∈ _population self -> c2 ∈ _population self ->
       weight c1 == weight c2) /\
    ((length (_population self) < 2)%nat -> b = true).
Proof.
  intros self. apply (is_uniform_iff_equal_weights self).
  apply Randomizer_init_ok.
Defined.

Lemma is_empty_iff_no_entries_witness :
  let self :=
    Randomizer_init (Some [MkWeightedChoice "a" 1; MkWeightedChoice "b" 3])
      (fun _ => 1 # 2) in
  fst (is_empty self) =
    Ok (match _population self with [] => true | _ => false end).
Proof.
  intros self. apply (is_empty_iff_no_entries self).
  - apply Randomizer_init_ok.
  - vm_compute. repeat constructor.
Defined.

(** ** The cached properties *)

Section CachedProperties.

Context {A : Type}.
Implicit Types (p choices : list (WeightedChoice A)) (self : Randomizer A).

Lemma cached_property_hit {T} name (inj : T -> pyval A) proj func self x s1 :
  (forall y, proj (inj y) = Some y) ->
  (forall v y, proj v = Some y -> v = inj y) ->
  cached_property name inj proj func self = (Ok x, s1) ->
  __dict__ s1 !! name = Some (inj x) /\
  cached_property name inj proj func s1 = (Ok x, s1).
Proof.
  intros Hpi Hip. unfold cached_property.
  destruct (__dict__ self !! name) as [v|] eqn:E.
  - destruct (proj v) as [y|] eqn:Ev; [|done]. intros [= <- <-].
    rewrite E, Ev. split; [|done]. f_equal. by apply Hip.
  - destruct (func self) as [[y|e] s'] eqn:Ef; [|done]. intros [= <- <-].
    simpl. rewrite lookup_insert_eq, Hpi. done.
Qed.

Lemma as_floats_inv (v : pyval A) y : as_floats v = Some y -> v = PyFloats y.
Proof. destruct v; simpl; congruence. Qed.
Lemma as_values_inv (v : pyval A) y : as_values v = Some y -> v = PyValues y.
Proof. destruct v; simpl; congruence. Qed.
Lemma as_bool_inv (v : pyval A) y : as_bool v = Some y -> v = PyBool y.
Proof. destruct v; simpl; congruence. Qed.
Lemma as_float_inv (v : pyval A) y : as_float v = Some y -> v = PyFloat y.
Proof. destruct v; simpl; congruence. Qed.

(** X7. A cached property that has been read with success is stored in the
    instance dictionary under its name, and reading it again returns the
    same value and leaves the object as it is; this holds for every one of
    the seven cached properties and every state of the sampler. *)
Theorem cached_property_read_twice self (v : view) (x : pyval A) s1 :
  read_view v self = (Ok x, s1) ->
  __dict__ s1 !! view_name v = Some x /\ read_view v s1 = (Ok x, s1).
Proof.
  destruct v; unfold read_view, bind;
    match goal with
    | |- context [?c self] =>
        destruct (c self) as [[y|e] s'] eqn:E; [|done]
    end;
    intros [= <- <-];
    (eapply cached_property_hit in E as [Hd Hr];
       [|done| first [exact as_floats_inv | exact as_values_inv
                     | exact as_bool_inv | exact as_float_inv]]);
    (split; [exact Hd|]).
  - unfold weights at 1. by rewrite Hr.
  - unfold return_values at 1. by rewrite Hr.
  - unfold is_uniform at 1. by rewrite Hr.
  - unfold cumulative_weights at 1. by rewrite Hr.
  - unfold total_weight at 1. by rewrite Hr.
  - unfold normalized_weights at 1. by rewrite Hr.
  - unfold normalized_cumulative_weights at 1. by rewrite Hr.
Qed.



(** X9. [cumulative_weights] has one entry for each choice; its entry at
    index [i] is the sum of the weights up to and including index [i], and
    its last entry is the total weight. *)
Theorem cumulative_weights_prefix_sums self :
  cache_ok self ->
  exists cw,
    fst (cumulative_weights self) = Ok cw /\
    length cw = length (_population self) /\
    (forall i x, cw !! i = Some x ->
       x == sum (take (S i) (weights_of (_population self)))) /\
    (forall x, last cw = Some x -> x == total_weight_of (_population self)).
Proof.
  intros Hok. destruct (reads_cumulative_weights self Hok) as (s1 & E1 & _).
  rewrite E1. cbn [fst]. exists (cumulative_weights_of (_population self)).
  unfold cumulative_weights_of, total_weight_of.
  set (ws := weights_of (_population self)).
  split; [done|]. split.
  - rewrite length_accumulate. unfold ws, weights_of. by rewrite length_map.
  - split; [intros i x; apply accumulate_lookup|].
    intros x. rewrite last_lookup, length_accumulate. intros Hx.
    apply accumulate_lookup in Hx as Hs. rewrite Hs.
    rewrite firstn_all2; [done|]. lia.
Qed.

Lemma is_cached_property_view name :
  is_cached_property name = true -> exists v, name = view_name v.
Proof.
  unfold is_cached_property, class_getitem, class_dict.
  cbn [List.find fst snd].
  repeat match goal with
         | |- context [String.eqb ?s name] =>
             destruct (String.eqb_spec s name) as [<-|_]
         end; cbn [fmap option_fmap option_map snd]; try discriminate;
    intros _.
  - by exists Weights.
  - by exists ReturnValues.
  - by exists IsUniform.
  - by exists CumulativeWeights.
  - by exists TotalWeight.
  - by exists NormalizedWeights.
  - by exists NormalizedCumulativeWeights.
Qed.

Lemma del_fold_other (props : list string) self name :
  is_cached_property name = false ->
  __dict__ (fold_left del_step props self) !! name = __dict__ self !! name.
Proof.
  intros Hn. revert self. induction props as [|prop props IH]; intros self;
    simpl; [done|].
  rewrite IH. unfold del_step.
  destruct (is_cached_property prop) eqn:Hp; [|done]. simpl.
  apply lookup_delete_ne. intros ->. congruence.
Qed.

(** X10. [_delete_cached_properties] removes from the instance dictionary
    the entries of the seven cached properties and nothing else: every other
    entry, the population, the random source and its state are as before. *)
Theorem delete_cached_properties_exact self :
  let self' := snd (_delete_cached_properties self) in
  (forall v, __dict__ self' !! view_name v = None) /\
  (forall name, (forall v, name <> view_name v) ->
     __dict__ self' !! name = __dict__ self !! name) /\
  _population self' = _population self /\ rng self' = rng self /\
  rng_calls self' = rng_calls self.
Proof.
  destruct (delete_cached_properties_spec self) as (_ & P & R & N & D).
  cbv zeta. split; [done|]. split; [|done].
  intros name Hname. unfold _delete_cached_properties. cbn [snd].
  apply del_fold_other.
  destruct (is_cached_property name) eqn:E; [|done].
  apply is_cached_property_view in E as [v ->]. by destruct (Hname v).
Qed.

End CachedProperties.

Lemma delete_cached_properties_exact_witness :
  let self :=
    MkRandomizer [MkWeightedChoice "a" 1] (fun _ => 0) 0
      (<["weights" := PyFloats [5]]> (<["note" := PyBool true]> ∅)) in
  let self' := snd (_delete_cached_properties self) in
  __dict__ self' !! "weights" = None /\
  __dict__ self' !! "note" = Some (PyBool true).
Proof.
  intros self self'. split.
  - apply (proj1 (delete_cached_properties_exact self) Weights).
  - apply (proj1 (proj2 (delete_cached_properties_exact self)) "note").
    intros v. destruct v; discriminate.
Defined.

Lemma cached_property_read_twice_witness :
  let self :=
    Randomizer_init (Some [MkWeightedChoice "a" 1; MkWeightedChoice "b" 3])
      (fun _ => 1 # 2) in
  let s1 := snd (read_view NormalizedCumulativeWeights self) in
  let x := PyFloats [1 # 4; 16 # 16] in
  __dict__ s1 !! view_name NormalizedCumulativeWeights = Some x /\
  read_view NormalizedCumulativeWeights s1 = (Ok x, s1).
Proof.
  intros self s1 x.
  apply (cached_property_read_twice self NormalizedCumulativeWeights x s1).
  vm_compute. reflexivity.
Defined.


Lemma cumulative_weights_prefix_sums_witness :
  let self :=
    Randomizer_init (Some [MkWeightedChoice "a" 1; MkWeightedChoice "b" 3])
      (fun _ => 1 # 2) in
  exists cw,
    fst (cumulative_weights self) = Ok cw /\
    length cw = length (_population self) /\
    (forall i x, cw !! i = Some x ->
       x == sum (take (S i) (weights_of (_population self)))) /\
    (forall x, last cw = Some x -> x == total_weight_of (_population self)).
Proof.
  intros self. apply (cumulative_weights_prefix_sums self).
  apply Randomizer_init_ok.
Defined.

(** ** Picking without replacement, for every [k] *)

Section WithoutGeneral.

Context {A : Type}.
Implicit Types (p choices : list (WeightedChoice A)) (self : Randomizer A).

(** A draw that returns has selected an entry of the working copy and
    removed it. *)
Lemma draw_inv choices w t_w r (v : A) choices' :
  draw choices w t_w r = Ok (v, choices') ->
  exists j c,
    choices !! j = Some c /\ v = return_value c /\ choices' = delete j choices.
Proof.
  unfold draw.
  destruct (scan _ _ _ _) as [i|e]; [|done]. simpl.
  unfold getitem, delitem.
  destruct (py_index (length choices) i) as [j|]; [|done].
  destruct (choices !! j) as [c|] eqn:Hc; [|done]. simpl.
  intros [= <- <-]. by exists j, c.
Qed.

(** A loop that returns has drawn [min(n, len(choices))] entries, each one
    once, with one call of the random source each. *)
Lemma pick_loop_inv n choices results self results' rest self' :
  Forall (fun c => 0 < weight c) choices ->
  pick_loop n results choices self = (Ok (results', rest), self') ->
  exists picked,
    results' = results ++ map return_value picked /\
    picked ++ rest ≡ₚ choices /\
    length picked = Nat.min n (length choices) /\
    self' = with_rng_calls self (rng_calls self + length picked).
Proof.
  revert choices results self.
  induction n as [|n IH]; intros choices results self Hpos.
  - intros [= <- <- <-]. exists []. simpl.
    rewrite app_nil_r, Nat.add_0_r. by rewrite with_rng_calls_id.
  - cbn [pick_loop].
    destruct (Qle0 (sum (map weight choices))) eqn:Ht.
    + intros [= <- <- <-].
      assert (choices = []) as ->.
      { destruct choices as [|c choices]; [done|].
        apply Qle0_true in Ht.
        assert (0 < sum (map weight (c :: choices)))
          by (apply sum_pos; [by apply Forall_map|done]).
        lra. }
      exists []. simpl. rewrite app_nil_r, Nat.add_0_r.
      by rewrite with_rng_calls_id.
    + unfold bind, call_rng, lift.
      destruct (draw _ _ _ _) as [[v choices']|e] eqn:Hd; [|done].
      apply draw_inv in Hd as (j & c & Hc & -> & ->). cbn [fst snd].
      intros Hl. apply IH in Hl as (picked & -> & Hp & Hn & ->);
        [|by apply Forall_delete].
      pose proof (lookup_lt_Some _ _ _ Hc) as Hj.
      rewrite length_delete in Hn by done.
      exists (c :: picked). split; [|split; [|split]].
      * by rewrite <- app_assoc.
      * simpl. rewrite Hp. symmetry. by apply delete_Permutation.
      * cbn [length]. lia.
      * unfold with_rng_calls. simpl. f_equal. lia.
Qed.

Lemma pick_without_replacement_inv
    self (k : Z) (replenish : bool) results self' :
  cache_ok self ->
  Forall (fun c => 0 < weight c) (_population self) ->
  pick_without_replacement k replenish self = (Ok results, self') ->
  exists picked rest,
    results = map return_value picked /\
    picked ++ rest ≡ₚ _population self /\
    length picked = Nat.min (Z.to_nat k) (length (_population self)) /\
    rng_calls self' = (rng_calls self + length picked)%nat /\
    _population self' = (if replenish then _population self else rest) /\
    cache_ok self'.
Proof.
  intros Hok Hpos.
  destruct (reads_is_empty self Hok) as (s1 & E1 & P1 & R1 & N1 & C1).
  cbn [fst snd] in *.
  unfold pick_without_replacement, bind. rewrite E1.
  destruct (decide (_population self = [])) as [Hnil|Hne].
  - rewrite Hnil in *. change (is_empty_of []) with true.
    intros [= <- <-]. exists [], []. rewrite Nat.min_0_r, Nat.add_0_r.
    repeat split; [done..| |done]. by destruct replenish.
  - pose proof (total_weight_pos _ Hne Hpos) as Ht.
    apply Qle0_false in Ht. unfold is_empty_of. rewrite Ht.
    unfold population at 1. unfold deepcopy.
    destruct (pick_loop _ _ _ s1) as [[[results' rest]|e] s2] eqn:Hl; [|done].
    apply pick_loop_inv in Hl as (picked & -> & Hperm & Hlen & ->);
      [|by rewrite P1].
    rewrite P1 in Hperm, Hlen. cbn [fst snd app].
    destruct replenish; cbn [negb].
    + intros [= <- <-]. exists picked, rest. simpl.
      repeat split; [done..|lia|done|]. intros v x. apply C1.
    + set (s2 := with_rng_calls s1 _).
      destruct (set_population_spec rest s2) as (Es & Ps & Rs & Ns & _ & Cs).
      destruct (set_population rest s2) as [[[]|e] s3]; [|done].
      cbn [fst snd] in *. intros [= <- <-]. exists picked, rest.
      repeat split; [done..| |done|done]. rewrite Ns. simpl. lia.
Qed.

(** X11. Whenever [pick_without_replacement] returns, on a population with
    positive weights and for [k >= 0], it has drawn [min(k, n)] choices with
    one call of the random source each; the values it returns are theirs in
    the order drawn; the choices drawn together with the choices left over
    are a rearrangement of the population; and the stored population is the
    population itself when [replenish] is true and the choices left over
    when it is false. *)
Theorem pick_without_replacement_returns_partition
    self (k : Z) (replenish : bool) results self' :
  cache_ok self ->
  Forall (fun c => 0 < weight c) (_population self) ->
  (0 <= k)%Z ->
  pick_without_replacement k replenish self = (Ok results, self') ->
  exists picked rest,
    results = map return_value picked /\
    picked ++ rest ≡ₚ _population self /\
    Z.of_nat (length picked) = Z.min k (Z.of_nat (length (_population self))) /\
    rng_calls self' = (rng_calls self + length picked)%nat /\
    _population self' = (if replenish then _population self else rest).
Proof.
  intros Hok Hpos Hk E.
  destruct (pick_without_replacement_inv _ _ _ _ _ Hok Hpos E)
    as (picked & rest & Hr & Hperm & Hlen & Hn & Hp & _).
  exists picked, rest. repeat split; [done..|lia|done|done].
Qed.

(** X12. Once [pick_without_replacement(k, replenish=False)] with [k] at
    least the size of the population has returned, on a population with
    positive weights, the sampler is exhausted: every later call of either
    picking method returns the empty list. *)
Theorem returned_exhaustive_pick_leaves_nothing
    self (k k1 k2 : Z) (replenish : bool) results self' :
  cache_ok self ->
  Forall (fun c => 0 < weight c) (_population self) ->
  (Z.of_nat (length (_population self)) <= k)%Z ->
  pick_without_replacement k false self = (Ok results, self') ->
  _population self' = [] /\
  fst (pick_with_replacement k1 self') = Ok [] /\
  fst (pick_without_replacement k2 replenish self') = Ok [].
Proof.
  intros Hok Hpos Hk E.
  destruct (pick_without_replacement_inv _ _ _ _ _ Hok Hpos E)
    as (picked & rest & _ & Hperm & Hlen & _ & Hp & Hs').
  assert (Hrest : rest = []).
  { apply Permutation_length in Hperm. rewrite length_app in Hperm.
    apply length_zero_iff_nil. lia. }
  rewrite Hrest in Hp. split; [done|].
  destruct (reads_is_empty self' Hs') as (s1 & E1 & _).
  rewrite Hp in E1. cbn [fst snd] in E1. change (is_empty_of []) with true in E1.
  unfold pick_with_replacement, pick_without_replacement, bind.
  by rewrite E1.
Qed.

End WithoutGeneral.

Lemma pick_without_replacement_returns_partition_witness :
  let self :=
    Randomizer_init
      (Some [MkWeightedChoice "a" 1; MkWeightedChoice "b" 3;
             MkWeightedChoice "c" 2])
      (fun i => if Nat.even i then 0 else 1 # 2) in
  let out := pick_without_replacement 2 false self in
  fst out = Ok ["c"; "b"] /\
  exists picked rest,
    ["c"; "b"] = map return_value picked /\
    picked ++ rest ≡ₚ _population self /\
    Z.of_nat (length picked) = Z.min 2 (Z.of_nat (length (_population self))) /\
    rng_calls (snd out) = (rng_calls self + length picked)%nat /\
    _population (snd out) = rest.
Proof.
  intros self out. split; [vm_compute; reflexivity|].
  apply (pick_without_replacement_returns_partition self 2 false
           ["c"; "b"] (snd out)).
  - apply Randomizer_init_ok.
  - vm_compute. repeat constructor.
  - lia.
  - vm_compute. reflexivity.
Defined.

Lemma returned_exhaustive_pick_leaves_nothing_witness :
  let self :=
    Randomizer_init (Some [MkWeightedChoice "a" 1; MkWeightedChoice "b" 3])
      (fun i => if Nat.even i then 0 else 1 # 2) in
  let out := pick_without_replacement 2 false self in
  _population (snd out) = [] /\
  fst (pick_with_replacement 4 (snd out)) = Ok [] /\
  fst (pick_without_replacement 4 true (snd out)) = Ok [].
Proof.
  intros self out.
  apply (returned_exhaustive_pick_leaves_nothing self 2 4 4 true
           ["b"; "a"] (snd out)).
  - apply Randomizer_init_ok.
  - vm_compute. repeat constructor.
  - vm_compute. discriminate.
  - vm_compute. reflexivity.
Defined.

(** ** Picking with replacement on the weighted path *)

Section Weighted.

Context {A : Type}.
Implicit Types (p choices : list (WeightedChoice A)) (self : Randomizer A).

(** One draw of the weighted path returns for every value of the random
    source, with a value of the population. *)
Lemma weighted_draws_any k self :
  cache_ok self -> is_empty_of (_population self) = false ->
  exists results self',
    repeatM k weighted_draw self = (Ok results, self') /\
    frame self self' (rng_calls self + k) /\
    length results = k /\
    forall j y, results !! j = Some y ->
      y ∈ return_values_of (_population self).
Proof.
  intros Hok He.
  pose proof (is_empty_false_nonempty _ He) as Hne.
  apply Qle0_false in He.
  destruct (normalized_cumulative_weights_of_ok _ He) as (ncw & Hncw & Hlen).
  destruct (repeatM_draws weighted_draw (_population self) (rng self)
              (fun _ y => y ∈ return_values_of (_population self)))
    with (k := k) (self := self)
    as (results & s' & E & F & L & HR); [|done..|by exists results, s'].
  intros s Hs Hp Hg.
  destruct (sim_weighted_draw s Hs) as (s1 & E1 & F1).
  rewrite Hp, Hg, Hncw in E1, F1. cbn [fst snd] in *.
  destruct (bisect_range ncw (rng self (rng_calls s)) 0
              (Z.of_nat (length (_population self)) - 1)) as (i & Hi & Hr).
  { destruct (_population self); simpl in *; [done|lia]. }
  { lia. }
  rewrite Hi in E1. simpl in E1.
  destruct (lookup_lt_is_Some_2 (return_values_of (_population self)) (Z.to_nat i))
    as [y Hy].
  { unfold return_values_of. rewrite length_map. lia. }
  apply getitem_nonneg in Hy as Hg'. rewrite Z2Nat.id in Hg' by lia.
  rewrite Hg' in E1. exists y, s1. split; [done|]. split; [done|].
  by eapply list_elem_of_lookup_2.
Qed.

(** X15. On a sampler that is neither empty nor uniform,
    [pick_with_replacement(k)] returns exactly [k] values of the population
    whatever values the random source returns, inside [[0, 1)] or not: the
    search is confined to the indices of the population. *)
Theorem weighted_pick_total self (k : Z) :
  cache_ok self ->
  fst (is_empty self) = Ok false ->
  fst (is_uniform self) = Ok false ->
  (0 <= k)%Z ->
  exists results self',
    pick_with_replacement k self = (Ok results, self') /\
    Z.of_nat (length results) = k /\
    forall y, y ∈ results -> y ∈ return_values_of (_population self).
Proof.
  intros Hok He Hu Hk.
  apply is_uniform_read in Hu; [|done].
  destruct (is_empty_read self false Hok He) as (He' & s1 & E1 & P1 & R1 & N1 & C1).
  destruct (reads_is_uniform s1 C1) as (s2 & E2 & P2 & R2 & N2 & C2).
  cbn [fst snd] in *. rewrite P1, Hu in E2.
  destruct (weighted_draws_any (Z.to_nat k) s2 C2)
    as (results & s3 & E3 & _ & Hlen & Hres).
  { by rewrite P2, P1. }
  exists results, s3. unfold pick_with_replacement, bind.
  rewrite E1, E2, E3. split; [done|]. split; [lia|].
  intros y Hy. apply list_elem_of_lookup in Hy as [j Hj].
  apply Hres in Hj. by rewrite P2, P1 in Hj.
Qed.

End Weighted.

Lemma weighted_pick_total_witness :
  let self :=
    Randomizer_init (Some [MkWeightedChoice "a" 1; MkWeightedChoice "b" 3])
      (fun i => if Nat.even i then 7 else -3) in
  exists results self',
    pick_with_replacement 3 self = (Ok results, self') /\
    Z.of_nat (length results) = 3%Z /\
    forall y, y ∈ results -> y ∈ return_values_of (_population self).
Proof.
  intros self. apply (weighted_pick_total self 3).
  - apply Randomizer_init_ok.
  - vm_compute. reflexivity.
  - vm_compute. reflexivity.
  - lia.
Defined.

(** ** Construction and the views after a pick *)

Section Lifecycle.

Context {A : Type}.
Implicit Types (p choices : list (WeightedChoice A)) (self : Randomizer A).

(** X18. A sampler constructed with a population stores that population
    (the empty one when none is given), has called its random source not
    yet, and every derived view read on it is the function of that
    population; constructed without a population it is empty. *)
Theorem Randomizer_init_views (pop : option (list (WeightedChoice A)))
    (g : nat -> Q) (vs : list view) (v : view) :
  let self := Randomizer_init pop g in
  _population self = default [] pop /\
  rng self = g /\ rng_calls self = 0%nat /\
  fst (read_view v (read_views vs self)) = view_of v (default [] pop) /\
  (pop = None -> fst (is_empty self) = Ok true).
Proof.
  cbv zeta.
  destruct (Randomizer_init_population pop g) as (P & R & N).
  pose proof (Randomizer_init_ok pop g) as C.
  split; [done|]. split; [done|]. split; [done|]. split.
  - destruct (read_views_frame vs _ C) as (P1 & _ & _ & C1).
    destruct (reads_view v _ C1) as (s2 & E2 & _). rewrite E2.
    cbn [fst]. by rewrite P1, P.
  - intros ->. vm_compute. reflexivity.
Qed.

(** X19. A population built with [UniformChoice] alone is uniform whatever
    its values, and its total weight is the number of its choices. *)
Theorem uniform_choices_are_uniform (values : list A) p self :
  Forall2 (fun v c => UniformChoice_init v = Ok c) values p ->
  cache_ok self ->
  _population self = p ->
  fst (is_uniform self) = Ok true /\
  exists t, fst (total_weight self) = Ok t /\
            t == inject_Z (Z.of_nat (length values)).
Proof.
  intros Hp Hok Hpop.
  assert (Hw : weights_of p = map (fun _ => 1) values).
  { unfold weights_of. clear Hpop.
    induction Hp as [|v c values p Hc _ IH]; [done|].
    simpl. rewrite IH. unfold UniformChoice_init in Hc.
    by injection Hc as <-. }
  destruct (reads_is_uniform self Hok) as (s1 & E1 & _).
  destruct (reads_total_weight self Hok) as (s2 & E2 & _).
  rewrite E1, E2, Hpop. cbn [fst]. split.
  - f_equal. apply is_uniform_of_iff. intros c1 c2 H1 H2.
    assert (Hone : forall c, c ∈ p -> weight c = 1).
    { intros c Hc. apply (list_elem_of_fmap_2 weight) in Hc.
      change (weight <$> p) with (weights_of p) in Hc. rewrite Hw in Hc.
      apply list_elem_of_In, in_map_iff in Hc as (? & ? & _). done. }
    by rewrite (Hone c1 H1), (Hone c2 H2).
  - eexists. split; [done|]. unfold total_weight_of. rewrite Hw.
    clear. induction values as [|v values IH].
    + reflexivity.
    + cbn [map length]. rewrite sum_cons, IH, Nat2Z.inj_succ.
      unfold Z.succ. rewrite inject_Z_plus. change (inject_Z 1) with 1. lra.
Qed.

(** X20. Neither picking method leaves a stale cache: after
    [pick_with_replacement] or [pick_without_replacement], with either value
    of [replenish] and whether the call returned or raised, every derived
    view read on the sampler is the function of the population it then
    stores. *)
Theorem views_after_pick self (k : Z) (replenish : bool) (v : view) :
  cache_ok self ->
  (let self' := snd (pick_with_replacement k self) in
   fst (read_view v self') = view_of v (_population self')) /\
  (let self' := snd (pick_without_replacement k replenish self) in
   fst (read_view v self') = view_of v (_population self')).
Proof.
  intros Hok. split; cbv zeta.
  - pose proof (coherent_pick_with_replacement k self Hok) as C.
    destruct (reads_view v _ C) as (s2 & E2 & _). by rewrite E2.
  - pose proof (coherent_pick_without_replacement k replenish self Hok) as C.
    destruct (reads_view v _ C) as (s2 & E2 & _). by rewrite E2.
Qed.

End Lifecycle.

Lemma Randomizer_init_views_witness :
  fst (is_empty (Randomizer_init (A:=string) None (fun _ => 0))) = Ok true.
Proof.
  apply (Randomizer_init_views (A:=string) None (fun _ => 0) [] Weights).
  reflexivity.
Defined.

Lemma uniform_choices_are_uniform_witness :
  let p := [MkWeightedChoice "a" 1; MkWeightedChoice "b" 1] in
  let self := Randomizer_init (Some p) (fun _ => 0) in
  fst (is_uniform self) = Ok true /\
  exists t, fst (total_weight self) = Ok t /\ t == inject_Z 2.
Proof.
  intros p self. apply (uniform_choices_are_uniform ["a"; "b"] p self).
  - repeat constructor.
  - apply Randomizer_init_ok.
  - vm_compute. reflexivity.
Defined.

Lemma views_after_pick_witness :
  let self :=
    Randomizer_init (Some [MkWeightedChoice "a" 1; MkWeightedChoice "b" 3])
      (fun _ => 1 # 2) in
  (let self' := snd (pick_with_replacement 2 self) in
   fst (read_view TotalWeight self') = view_of TotalWeight (_population self')) /\
  (let self' := snd (pick_without_replacement 2 false self) in
   fst (read_view TotalWeight self') = view_of TotalWeight (_population self')).
Proof.
  intros self. apply (views_after_pick self 2 false TotalWeight).
  apply Randomizer_init_ok.
Defined.

(** * Properties of the module over binary64 *)

Module B64Facts.

Import PrimFloat B64.

Section Cache.

Context {A : Type} (py312 : bool).
Implicit Types (p : list (WeightedChoice A)) (self : Randomizer A).

Local Abbreviation cache_ok := (B64.cache_ok (A:=A) py312).
Local Abbreviation frame := (B64.frame (A:=A) py312).
Local Abbreviation sim := (B64.sim (A:=A) py312).
Local Abbreviation reads := (B64.reads (A:=A) py312).
Local Abbreviation view_of := (B64.view_of (A:=A) py312).
Local Abbreviation total_weight := (B64.total_weight (A:=A) py312).
Local Abbreviation total_weight_of := (B64.total_weight_of (A:=A) py312).
Local Abbreviation is_empty := (B64.is_empty (A:=A) py312).
Local Abbreviation is_empty_of := (B64.is_empty_of (A:=A) py312).
Local Abbreviation pick_with_replacement := (B64.pick_with_replacement (A:=A) py312).
Local Abbreviation pick_without_replacement :=
  (B64.pick_without_replacement (A:=A) py312).
Local Abbreviation pick_loop := (B64.pick_loop (A:=A) py312).
Local Abbreviation weighted_draw := (B64.weighted_draw (A:=A) py312).
Local Abbreviation normalized_weights := (B64.normalized_weights (A:=A) py312).
Local Abbreviation normalized_weights_of :=
  (B64.normalized_weights_of (A:=A) py312).
Local Abbreviation normalized_cumulative_weights :=
  (B64.normalized_cumulative_weights (A:=A) py312).
Local Abbreviation normalized_cumulative_weights_of :=
  (B64.normalized_cumulative_weights_of (A:=A) py312).
Local Abbreviation coherent := (B64.coherent (A:=A) py312).

Lemma b64_frame_refl self : cache_ok self -> frame self self (rng_calls self).
Proof. by intros H. Qed.

Lemma b64_sim_ext {T} (c : M A T) f f' :
  sim c f -> (forall p g n, f p g n = f' p g n) -> sim c f'.
Proof.
  intros Hc Hf self Hok. destruct (Hc self Hok) as (self' & E & F).
  exists self'. by rewrite <- Hf.
Qed.

Lemma b64_reads_ext {T} (c : M A T) h h' :
  reads c h -> (forall p, h p = h' p) -> reads c h'.
Proof.
  intros Hc Hh. apply (b64_sim_ext _ _ _ Hc). intros p _ n. by rewrite Hh.
Qed.

Lemma b64_reads_ret {T} (v : T) : reads (ret v) (fun _ => Ok v).
Proof. intros self Hok. exists self. split; [done|]. by apply b64_frame_refl. Qed.

Lemma b64_reads_lift {T} (r : res T) : reads (lift r) (fun _ => r).
Proof. intros self Hok. exists self. split; [done|]. by apply b64_frame_refl. Qed.

Lemma b64_reads_population : reads population (fun p => Ok p).
Proof. intros self Hok. exists self. split; [done|]. by apply b64_frame_refl. Qed.

Lemma b64_sim_call_rng : sim call_rng (fun _ g n => (Ok (g n), S n)).
Proof.
  intros self Hok. exists (with_rng_calls self (S (rng_calls self))).
  split; [done|]. by repeat split.
Qed.

Lemma b64_sim_bind {T U} (c : M A T) (k : T -> M A U) f g :
  sim c f -> (forall x, sim (k x) (g x)) ->
  sim (bind c k)
      (fun p r n =>
         match f p r n with
         | (Ok x, n') => g x p r n'
         | (Raise e, n') => (Raise e, n')
         end).
Proof.
  intros Hc Hk self Hok. destruct (Hc self Hok) as (s1 & E1 & P1 & R1 & N1 & C1).
  unfold bind. rewrite E1.
  destruct (f (_population self) (rng self) (rng_calls self)) as [[x|e] n'];
    simpl in *.
  - destruct (Hk x s1 C1) as (s2 & E2 & P2 & R2 & N2 & C2).
    rewrite P1, R1, N1 in E2, N2. exists s2. split; [done|].
    repeat split; [congruence|congruence|done|done].
  - exists s1. by repeat split.
Qed.

Lemma b64_reads_bind {T U} (c : M A T) (k : T -> M A U) h h' :
  reads c h -> (forall x, reads (k x) (h' x)) ->
  reads (bind c k) (fun p => res_bind (h p) (fun x => h' x p)).
Proof.
  intros Hc Hk.
  eapply b64_sim_ext;
    [apply (b64_sim_bind c k _ (fun x p (_ : nat -> float) n => (h' x p, n)) Hc Hk)|].
  intros p g n. simpl. by destruct (h p).
Qed.

Lemma b64_reads_if {T} (b : bool) (c1 c2 : M A T) h1 h2 :
  reads c1 h1 -> reads c2 h2 ->
  reads (if b then c1 else c2) (fun p => if b then h1 p else h2 p).
Proof. by destruct b. Qed.

Lemma b64_reads_cached {T} (v : view) (inj : T -> pyval A) proj func h0 h :
  (forall x, proj (inj x) = Some x) ->
  reads func h0 ->
  (forall p, h0 p = h p) ->
  (forall p, view_of v p = res_map inj (h p)) ->
  reads (cached_property (view_name v) inj proj func) h.
Proof.
  intros Hproj Hfunc Hh Hview self Hok. unfold cached_property. simpl.
  destruct (__dict__ self !! view_name v) as [y|] eqn:E.
  - apply Hok in E. rewrite Hview in E.
    destruct (h (_population self)) as [x|e]; simpl in E; [|done].
    injection E as <-. rewrite Hproj. exists self. split; [done|].
    by apply b64_frame_refl.
  - destruct (Hfunc self Hok) as (s1 & E1 & P1 & R1 & N1 & C1). simpl in *.
    rewrite E1, Hh. destruct (h (_population self)) as [x|e] eqn:Ex.
    + eexists. split; [done|]. repeat split; simpl; [done..|].
      intros v' x'. simpl. rewrite lookup_insert. case_decide as Hv.
      * apply view_name_inj in Hv as <-. intros [= <-].
        by rewrite P1, Hview, Ex.
      * apply C1.
    + exists s1. by repeat split.
Qed.

Lemma b64_reads_weights : reads weights (fun p => Ok (weights_of p)).
Proof.
  apply (b64_reads_cached Weights) with (h0 := fun p => Ok (weights_of p)); try done.
  eapply b64_reads_ext.
  - apply b64_reads_bind; [apply b64_reads_population|]. intros p. apply b64_reads_ret.
  - done.
Qed.

Lemma b64_reads_return_values :
  reads return_values (fun p => Ok (return_values_of p)).
Proof.
  apply (b64_reads_cached ReturnValues) with (h0 := fun p => Ok (return_values_of p));
    try done.
  eapply b64_reads_ext.
  - apply b64_reads_bind; [apply b64_reads_population|]. intros p. apply b64_reads_ret.
  - done.
Qed.

Lemma b64_reads_is_uniform : reads is_uniform (fun p => Ok (is_uniform_of p)).
Proof.
  eapply (b64_reads_cached IsUniform); [done| |intros p; reflexivity|done].
  eapply b64_reads_ext.
  - apply b64_reads_bind; [apply b64_reads_weights|]. intros w1.
    apply b64_reads_if; [apply b64_reads_ret|].
    apply b64_reads_bind; [apply b64_reads_weights|]. intros w2.
    apply b64_reads_if; [apply b64_reads_ret|].
    apply b64_reads_bind; [apply b64_reads_weights|]. intros w3.
    apply b64_reads_bind; [apply b64_reads_lift|]. intros first_elem.
    apply b64_reads_bind; [apply b64_reads_weights|]. intros w4. apply b64_reads_ret.
  - intros p. unfold is_uniform_of. simpl.
    rewrite <- (length_map weight p). fold (weights_of p).
    destruct (weights_of p) as [|x l]; [done|]. simpl.
    by destruct (Z.of_nat (S (length l)) <? 2)%Z.
Qed.

Lemma b64_reads_total_weight :
  reads total_weight (fun p => Ok (total_weight_of p)).
Proof.
  apply (b64_reads_cached TotalWeight)
    with (h0 := fun p => Ok (total_weight_of p)); try done.
  eapply b64_reads_ext.
  - apply b64_reads_bind; [apply b64_reads_weights|]. intros w. apply b64_reads_ret.
  - done.
Qed.

Lemma b64_reads_is_empty : reads is_empty (fun p => Ok (is_empty_of p)).
Proof.
  eapply b64_reads_ext.
  - apply b64_reads_bind; [apply b64_reads_total_weight|]. intros t. apply b64_reads_ret.
  - done.
Qed.

Lemma b64_del_fold_frame (props : list string) self :
  let self' := fold_left del_step props self in
  _population self' = _population self /\ rng self' = rng self /\
  rng_calls self' = rng_calls self.
Proof.
  revert self. induction props as [|prop props IH]; intros self; simpl; [done|].
  destruct (IH (del_step self prop)) as (P & R & N). simpl in *.
  rewrite P, R, N. unfold del_step. by destruct (is_cached_property prop).
Qed.

Lemma b64_del_fold_absent (props : list string) self name :
  __dict__ self !! name = None ->
  __dict__ (fold_left del_step props self) !! name = None.
Proof.
  revert self. induction props as [|prop props IH]; intros self H; simpl; [done|].
  apply IH. unfold del_step. destruct (is_cached_property prop); [|done].
  simpl. rewrite lookup_delete. by case_decide.
Qed.

Lemma b64_del_fold_deleted (props : list string) self name :
  In name props -> is_cached_property name = true ->
  __dict__ (fold_left del_step props self) !! name = None.
Proof.
  revert self. induction props as [|prop props IH]; intros self Hin Hc; [done|].
  simpl. destruct Hin as [->|Hin]; [|by apply IH].
  apply b64_del_fold_absent. unfold del_step. rewrite Hc. simpl.
  apply lookup_delete_eq.
Qed.

Lemma b64_delete_cached_properties_spec self :
  let self' := snd (_delete_cached_properties self) in
  fst (_delete_cached_properties self) = Ok tt /\
  _population self' = _population self /\ rng self' = rng self /\
  rng_calls self' = rng_calls self /\
  forall v, __dict__ self' !! view_name v = None.
Proof.
  unfold _delete_cached_properties. cbn [fst snd]. split; [done|].
  destruct (b64_del_fold_frame props self) as (P & R & N).
  repeat split; [done..|]. intros v.
  destruct (view_name_scanned v) as [Hin Hc]. by apply b64_del_fold_deleted.
Qed.

Lemma b64_set_population_spec other self :
  let self' := snd (set_population other self) in
  fst (set_population other self) = Ok tt /\
  _population self' = other /\ rng self' = rng self /\
  rng_calls self' = rng_calls self /\
  (forall v, __dict__ self' !! view_name v = None) /\ cache_ok self'.
Proof.
  destruct (b64_delete_cached_properties_spec self) as (E & P & R & N & D).
  unfold set_population, bind.
  destruct (_delete_cached_properties self) as [[[]|e] s1]; simpl in *; [|done].
  repeat split; [done..|]. intros v x. simpl. by rewrite D.
Qed.

Lemma b64_Randomizer_init_ok pop g : cache_ok (Randomizer_init pop g).
Proof.
  destruct pop as [p|]; simpl.
  - apply b64_set_population_spec.
  - intros v x. simpl. by rewrite lookup_empty.
Qed.

Lemma b64_Randomizer_init_population pop g :
  _population (Randomizer_init (A:=A) pop g) = default [] pop /\
  rng (Randomizer_init pop g) = g /\ rng_calls (Randomizer_init pop g) = 0%nat.
Proof.
  destruct pop as [p|]; simpl; [|done].
  destruct (b64_set_population_spec p (MkRandomizer [] g 0 ∅)) as (_ & P & R & N & _).
  done.
Qed.

Lemma b64_sim_uniform_draw :
  sim uniform_draw (fun p g n => (uniform_value p (g n), S n)).
Proof.
  eapply b64_sim_ext.
  - apply b64_sim_bind; [apply b64_reads_return_values|]. intros rv.
    apply b64_sim_bind; [apply b64_sim_call_rng|]. intros r.
    apply b64_sim_bind; [apply b64_reads_population|]. intros p.
    apply b64_sim_bind; [apply b64_reads_lift|]. intros i.
    apply b64_reads_lift.
  - intros p g n. simpl. unfold uniform_value.
    by destruct (floor (g n * of_len (length p))).
Qed.

(** [k] draws of the uniform path: the values of the draws numbered from the
    calls made so far, up to the first that raises. *)
Lemma b64_uniform_draws k self :
  cache_ok self ->
  fst (repeatM k uniform_draw self) =
    res_mapM (fun i => uniform_value (_population self) (rng self i))
      (seq (rng_calls self) k).
Proof.
  revert self. induction k as [|k IH]; intros self Hok; [done|].
  destruct (b64_sim_uniform_draw self Hok) as (s1 & E1 & P1 & R1 & N1 & C1).
  cbn [fst snd] in *. cbn [repeatM seq res_mapM]. unfold bind. rewrite E1.
  destruct (uniform_value (_population self) (rng self (rng_calls self)))
    as [y|e]; [|done].
  specialize (IH s1 C1). rewrite P1, R1, N1 in IH.
  destruct (repeatM k uniform_draw s1) as [[ys|e] s2]; cbn [fst] in IH;
    rewrite <- IH; done.
Qed.

Lemma b64_reads_mapM {T U} (f : T -> M A U) (h : T -> list (WeightedChoice A) -> res U) l :
  (forall x, reads (f x) (h x)) ->
  reads (mapM f l) (fun p => res_mapM (fun x => h x p) l).
Proof.
  intros Hf. induction l as [|x l IH]; simpl.
  - apply b64_reads_ret.
  - eapply b64_reads_ext.
    + apply b64_reads_bind; [apply Hf|]. intros y.
      apply b64_reads_bind; [apply IH|]. intros ys. apply b64_reads_ret.
    + done.
Qed.

Lemma b64_reads_cumulative_weights :
  reads cumulative_weights (fun p => Ok (cumulative_weights_of p)).
Proof.
  apply (b64_reads_cached CumulativeWeights)
    with (h0 := fun p => Ok (cumulative_weights_of p)); try done.
  eapply b64_reads_ext.
  - apply b64_reads_bind; [apply b64_reads_weights|]. intros w. apply b64_reads_ret.
  - done.
Qed.

Lemma b64_reads_normalized_weights :
  reads normalized_weights normalized_weights_of.
Proof.
  eapply (b64_reads_cached NormalizedWeights); [done| |intros p; reflexivity|done].
  eapply b64_reads_ext.
  - apply b64_reads_bind; [apply b64_reads_weights|]. intros w.
    apply b64_reads_mapM. intros x.
    apply b64_reads_bind; [apply b64_reads_total_weight|]. intros t. apply b64_reads_lift.
  - done.
Qed.

Lemma b64_reads_normalized_cumulative_weights :
  reads normalized_cumulative_weights normalized_cumulative_weights_of.
Proof.
  eapply (b64_reads_cached NormalizedCumulativeWeights);
    [done| |intros p; reflexivity|done].
  eapply b64_reads_ext.
  - apply b64_reads_bind; [apply b64_reads_normalized_weights|]. intros w.
    apply b64_reads_ret.
  - done.
Qed.

Lemma b64_sim_weighted_draw :
  sim weighted_draw
    (fun p g n =>
       match normalized_cumulative_weights_of p with
       | Ok ncw =>
           (res_bind (bisect ncw (g n) 0%Z (Z.of_nat (length p) - 1)%Z)
              (fun i => getitem (return_values_of p) i), S n)
       | Raise e => (Raise e, n)
       end).
Proof.
  eapply b64_sim_ext.
  - apply b64_sim_bind; [apply b64_reads_return_values|]. intros rv.
    apply b64_sim_bind; [apply b64_reads_normalized_cumulative_weights|]. intros ncw.
    apply b64_sim_bind; [apply b64_sim_call_rng|]. intros r.
    apply b64_sim_bind; [apply b64_reads_population|]. intros p.
    apply b64_sim_bind; [apply b64_reads_lift|]. intros i.
    apply b64_reads_lift.
  - intros p g n. simpl.
    destruct (normalized_cumulative_weights_of p) as [ncw|e]; [|done].
    by destruct (bisect ncw (g n) 0%Z (Z.of_nat (length p) - 1)%Z).
Qed.

Lemma b64_coherent_sim {T} (c : M A T) f : sim c f -> coherent c.
Proof.
  intros Hc self Hok. destruct (Hc self Hok) as (s1 & E1 & _ & _ & _ & C1).
  by rewrite E1.
Qed.

Lemma b64_coherent_bind {T U} (c : M A T) (k : T -> M A U) :
  coherent c -> (forall x, coherent (k x)) -> coherent (bind c k).
Proof.
  intros Hc Hk self Hok. unfold bind. specialize (Hc self Hok).
  destruct (c self) as [[x|e] s1]; simpl in *; [|done]. by apply Hk.
Qed.

Lemma b64_coherent_repeatM {T} n (e : M A T) : coherent e -> coherent (repeatM n e).
Proof.
  intros He. induction n as [|n IH]; simpl.
  - by intros self.
  - apply b64_coherent_bind; [done|]. intros y.
    apply b64_coherent_bind; [done|]. by intros ys self.
Qed.

Lemma b64_coherent_pick_loop n results choices :
  coherent (pick_loop n results choices).
Proof.
  revert results choices. induction n as [|n IH]; intros results choices; simpl.
  - by intros self.
  - destruct (le0 _); [by intros self|].
    apply b64_coherent_bind; [apply (b64_coherent_sim _ _ b64_sim_call_rng)|]. intros r.
    apply b64_coherent_bind; [by intros self|]. intros vc. apply IH.
Qed.

Lemma b64_coherent_set_population other : coherent (set_population other).
Proof. intros self _. apply b64_set_population_spec. Qed.

Lemma b64_coherent_pick_with_replacement k :
  coherent (pick_with_replacement k).
Proof.
  unfold pick_with_replacement.
  apply b64_coherent_bind; [apply (b64_coherent_sim _ _ b64_reads_is_empty)|]. intros e.
  destruct e; [by intros self|].
  apply b64_coherent_bind; [apply (b64_coherent_sim _ _ b64_reads_is_uniform)|]. intros u.
  destruct u; apply b64_coherent_repeatM.
  - apply (b64_coherent_sim _ _ b64_sim_uniform_draw).
  - apply (b64_coherent_sim _ _ b64_sim_weighted_draw).
Qed.

Lemma b64_coherent_pick_without_replacement k replenish :
  coherent (pick_without_replacement k replenish).
Proof.
  unfold pick_without_replacement.
  apply b64_coherent_bind; [apply (b64_coherent_sim _ _ b64_reads_is_empty)|]. intros e.
  destruct e; [by intros self|].
  apply b64_coherent_bind; [by intros self|]. intros p.
  apply b64_coherent_bind; [apply b64_coherent_pick_loop|]. intros rc.
  apply b64_coherent_bind; [|by intros _ self].
  destruct replenish; simpl; [by intros self|apply b64_coherent_set_population].
Qed.

Lemma b64_res_mapM_const {T U} (f : T -> res U) (y : U) l :
  (forall x, f x = Ok y) -> res_mapM f l = Ok (replicate (length l) y).
Proof.
  intros Hf. induction l as [|x l IH]; [done|].
  simpl. by rewrite Hf, IH.
Qed.

(** C6. When [is_uniform] holds, [pick_with_replacement(k)] returns the empty
    list on an empty sampler and otherwise makes its [k] draws in order, the
    value of each being the return value at index
    [floor(r * len(population))] for the [r] the random source returned, the
    product being the binary64 one; in particular, on the population
    [[(a, 1), (b, 1), (c, 1)]] with a random source that always returns
    [0.0], it returns [k] times [a], for every [k]. *)
Theorem b64_uniform_pick_floor_index :
  (forall self (k : Z),
     cache_ok self ->
     fst (is_uniform self) = Ok true ->
     fst (pick_with_replacement k self) =
       if is_empty_of (_population self) then Ok []
       else
         res_mapM
           (fun i =>
              res_bind
                (floor (rng self i * of_len (length (_population self)))%float)
                (getitem (return_values_of (_population self))))
           (seq (rng_calls self) (Z.to_nat k))) /\
  (forall (a b c : A) (k : Z),
     fst (pick_with_replacement k
            (Randomizer_init
               (Some [MkWeightedChoice a 1%float; MkWeightedChoice b 1%float;
                      MkWeightedChoice c 1%float])
               (fun _ => 0%float)))
     = Ok (replicate (Z.to_nat k) a)).
Proof.
  assert (Hgen : forall self (k : Z),
     cache_ok self ->
     fst (is_uniform self) = Ok true ->
     fst (pick_with_replacement k self) =
       if is_empty_of (_population self) then Ok []
       else
         res_mapM (fun i => uniform_value (_population self) (rng self i))
           (seq (rng_calls self) (Z.to_nat k))).
  { intros self k Hok Hu.
    destruct (b64_reads_is_empty self Hok) as (s1 & E1 & P1 & R1 & N1 & C1).
    destruct (b64_reads_is_uniform s1 C1) as (s2 & E2 & P2 & R2 & N2 & C2).
    destruct (b64_reads_is_uniform self Hok) as (s3 & E3 & _).
    rewrite E3 in Hu. cbn [fst snd] in *. injection Hu as Hu.
    rewrite P1, Hu in E2.
    unfold B64.pick_with_replacement, bind. rewrite E1.
    destruct (is_empty_of (_population self)); [done|].
    rewrite E2. rewrite (b64_uniform_draws _ s2 C2).
    by rewrite P2, P1, R2, R1, N2, N1. }
  split; [exact Hgen|].
  intros a b c k.
  set (self := Randomizer_init _ _).
  pose proof (b64_Randomizer_init_ok
                (Some [MkWeightedChoice a 1%float; MkWeightedChoice b 1%float;
                       MkWeightedChoice c 1%float]) (fun _ => 0%float)) as Hok.
  fold self in Hok.
  destruct (b64_Randomizer_init_population
              (Some [MkWeightedChoice a 1%float; MkWeightedChoice b 1%float;
                     MkWeightedChoice c 1%float]) (fun _ => 0%float))
    as (P & R & N).
  fold self in P, R, N.
  rewrite (Hgen self k Hok) by (destruct py312; vm_compute; reflexivity).
  rewrite P, R, N. simpl default.
  replace (is_empty_of _) with false by (destruct py312; vm_compute; reflexivity).
  rewrite (b64_res_mapM_const _ a); [by rewrite length_seq|].
  intros i. vm_compute. reflexivity.
Qed.

End Cache.

Lemma b64_uniform_pick_floor_index_witness :
  let self :=
    Randomizer_init
      (Some [MkWeightedChoice "a" 1%float; MkWeightedChoice "b" 1%float;
             MkWeightedChoice "c" 1%float])
      (fun _ => third) in
  floor (third * of_len 3)%float = Ok 1%Z /\
  fst (pick_with_replacement false 2 self) = Ok ["b"; "b"].
Proof.
  intros self. split; [vm_compute; reflexivity|].
  rewrite (proj1 (b64_uniform_pick_floor_index false) self 2%Z).
  - vm_compute. reflexivity.
  - apply b64_Randomizer_init_ok.
  - vm_compute. reflexivity.
Defined.

(** C3, on the machine.  On the population with the weights [0.4], [0.8],
    [0.3], all positive, with a random source that returns the largest float
    below [1] and [k = 3], the three weights subtracted from the target
    [t_w * r] of the first draw leave a positive rest: the scan runs past
    the last weight,
    [pick_without_replacement(3, replenish=False)] raises [IndexError] and
    the stored population keeps its three choices.  With the compensated
    [sum] of the later interpreters the same happens on ten weights [0.1]. *)
Theorem b64_pick_without_replacement_overrun :
  let p3 :=
    [MkWeightedChoice "a" w04; MkWeightedChoice "b" w08;
     MkWeightedChoice "c" w03] in
  let p10 := map (fun v : nat => MkWeightedChoice v w01) (seq 0 10) in
  forallb (fun c => gt0 (weight c)) p3 = true /\
  forallb (fun c => gt0 (weight c)) p10 = true /\
  ((0 <=? below_one) && (below_one <? 1))%float = true /\
  scan 4 (map weight p3) (sum false (map weight p3) * below_one)%float (-1)
    = Raise IndexError /\
  fst (pick_without_replacement false 3 false
         (Randomizer_init (Some p3) (fun _ => below_one)))
  = Raise IndexError /\
  _population
    (snd (pick_without_replacement false 3 false
            (Randomizer_init (Some p3) (fun _ => below_one))))
  = p3 /\
  fst (pick_without_replacement true 10 false
         (Randomizer_init (Some p10) (fun _ => below_one)))
  = Raise IndexError /\
  _population
    (snd (pick_without_replacement true 10 false
            (Randomizer_init (Some p10) (fun _ => below_one))))
  = p10.
Proof. vm_compute. repeat split; reflexivity. Qed.

End B64Facts.
